(** * mpts: per-PID PES reassembly and codec analysis (H.266/VVC, MPEG-H)

    A shallow embedding of [internal/h266.go] and of the MPEG-H 3D Audio
    record (the MHAS analyzer), with the properties the specification
    states about them.

    Conventions.
    - Go's [int], [int64] and [uint64] are [Z]; the 64-bit wrap-around is
      written out ([wrap64], [to_uint64]) wherever the source computes a new
      value.  Slice lengths and cursors bounded by a slice length are far
      below 2^63, so [len] and cursor arithmetic is exact.
    - [[]byte] is [list byte]; [[]string] is [list string].
    - A run-time panic (index or slice bound out of range, nil
      dereference) is [None] for a single slice operation and [Panic] in
      the [outcome] of a call. *)

From Stdlib Require Import ZArith List String Ascii Bool Lia.
From Stdlib Require Import Strings.Byte.
From Stdlib Require Import DecimalString Sorted.
Import ListNotations.
Open Scope Z_scope.

(** ** Machine integers and byte slices *)

Module GoInt.

Definition wrap64 (z : Z) : Z := (z + 2 ^ 63) mod 2 ^ 64 - 2 ^ 63.

Definition to_uint64 (z : Z) : Z := z mod 2 ^ 64.

Definition in_int64 (z : Z) : Prop := - 2 ^ 63 <= z < 2 ^ 63.

Definition add64 (a b : Z) : Z := wrap64 (a + b).
Definition sub64 (a b : Z) : Z := wrap64 (a - b).

(** [x << n] on [uint64]: a negative count panics, a count of 64 or more
    gives 0. *)
Definition shl_uint64 (x n : Z) : option Z :=
  if n <? 0 then None else Some (to_uint64 (Z.shiftl x n)).

(** [strconv.FormatInt(z, 10)]. *)
Definition FormatInt (z : Z) : string := NilZero.string_of_int (Z.to_int z).

End GoInt.
Import GoInt.

Module Bytes.

Definition byte_Z (b : byte) : Z := Z.of_N (Byte.to_N b).

Definition len {A} (s : list A) : Z := Z.of_nat (List.length s).

(** [data[i]] where the source has already checked [0 <= i < len(data)]. *)
Definition at_ (data : list byte) (i : Z) : byte :=
  nth (Z.to_nat i) data x00.

(** [data[i]] with Go's bounds check. *)
Definition index (data : list byte) (i : Z) : option byte :=
  if (i <? 0) || (len data <=? i) then None else nth_error data (Z.to_nat i).

(** [data[lo:hi]] where the source has already checked the bounds. *)
Definition slice (data : list byte) (lo hi : Z) : list byte :=
  firstn (Z.to_nat (hi - lo)) (skipn (Z.to_nat lo) data).

(** [data[lo:]] with Go's bounds check. *)
Definition slice_from (data : list byte) (lo : Z) : option (list byte) :=
  if (lo <? 0) || (len data <? lo) then None
  else Some (skipn (Z.to_nat lo) data).

(** [bytes.Compare(a, b) == 0]. *)
Definition bytes_eqb (a b : list byte) : bool :=
  if list_eq_dec Byte.byte_eq_dec a b then true else false.

Definition startcode : list byte := [x00; x00; x01].

End Bytes.
Import Bytes.

(** ** H.266/VVC NAL analyzer ([internal/h266.go]) *)

Module H266.

Definition VvcNalUnitType : list string :=
  [ "trail_nvc"; "stsa_nvc"; "radl_nvc"; "rasl_nvc";
    "rsv_vcl_4"; "rsv_vcl_5"; "rsv_vcl_6";
    "idr_w_radl"; "idr_n_lp"; "cra_nut"; "gdr_nut"; "rsv_irap_11";
    "opi_nut"; "dci_nut"; "vps_nut"; "sps_nut"; "pps_nut";
    "prefix_aps_nut"; "suffix_aps_nut"; "ph_nut"; "aud_nut";
    "eob_nut"; "eos_nut"; "prefix_sei_nut"; "suffix_sei_nut"; "fd_nut";
    "rsv_nvcl_26"; "rsv_nvcl_27";
    "unspec_28"; "unspec_29"; "unspec_30"; "unspec_31" ]%string.

Definition nal_index (b : Z) : Z := Z.land (Z.shiftr b 3) 0x1F.

Definition GetVvcNalUnitType (b : Z) : string :=
  let nalType := nal_index b in
  if nalType <? len VvcNalUnitType
  then nth (Z.to_nat nalType) VvcNalUnitType "unknown"%string
  else "unknown"%string.

Definition startlen : Z := len startcode.

(** The [for pos+5 < len(data)] loop of [ParseVvcNalUnits]; one unit of
    fuel per iteration. *)
Fixpoint vvc_scan (fuel : nat) (data : list byte) (pos : Z)
    (nals : list string) : list string :=
  match fuel with
  | O => nals
  | S fuel' =>
    if pos + 5 <? len data then
      if bytes_eqb startcode (slice data pos (pos + startlen)) then
        let pos := pos + startlen in
        let nals :=
          if pos + 1 <? len data
          then nals ++ [GetVvcNalUnitType (byte_Z (at_ data (pos + 1)))]
          else nals in
        vvc_scan fuel' data (pos + 1) nals
      else vvc_scan fuel' data (pos + 1) nals
    else nals
  end.

(** [pos] grows by at least one per iteration, so [len(data)] iterations
    always reach the loop guard (see [vvc_scan_fuel]). *)
Definition ParseVvcNalUnits (data : list byte) : list string :=
  vvc_scan (List.length data) data 0 [].

(** Occurrences of the marker [00 00 01] in a byte sequence. *)
Definition marker_at (data : list byte) (p : Z) : bool :=
  bytes_eqb startcode (slice data p (p + 3)).

Definition markers_from (data : list byte) (p n : nat) : list Z :=
  filter (marker_at data) (map Z.of_nat (seq p n)).

Definition markers (data : list byte) : list Z :=
  markers_from data 0 (List.length data).

(** The classification the analyzer gives the marker at offset [p]: the
    table entry of the second byte after the marker. *)
Definition classify_at (data : list byte) (p : Z) : string :=
  GetVvcNalUnitType (byte_Z (at_ data (p + 4))).

Definition is_rap_nal (nal : string) : bool :=
  String.eqb nal "idr_w_radl" || String.eqb nal "idr_n_lp"
  || String.eqb nal "cra_nut".

End H266.

(** ** Outcomes of a call

    [Ok] is a normal return, [Panic] a Go run-time panic, [Fuel] a loop that
    was cut before its guard failed (shown never to happen for the fuel the
    callers give). *)

Module Outcome.

Inductive outcome (A : Type) : Type :=
| Ok (a : A)
| Panic
| Fuel.
Arguments Ok {A} a.
Arguments Panic {A}.
Arguments Fuel {A}.

Definition bind {A B} (c : outcome A) (k : A -> outcome B) : outcome B :=
  match c with
  | Ok a => k a
  | Panic => Panic
  | Fuel => Fuel
  end.

Definition of_option {A} (o : option A) : outcome A :=
  match o with
  | Some a => Ok a
  | None => Panic
  end.

End Outcome.
Import Outcome.

Notation "x <- c ;; k" := (bind c (fun x => k))
  (at level 61, c at next level, right associativity).
Notation "' p <- c ;; k" := (bind c (fun x => let 'p := x in k))
  (at level 61, p pattern, c at next level, right associativity).

(** ** Bit reader *)

Module BitReader.

(** Modelled from the spec: the [Reader] type and its methods [ReadBit64]
    and [SkipByte] stand in another file of the package.  The payload is
    "parsed as a bit-addressable stream with a byte+bit cursor": [Base] is
    the byte index, [Off] the bit index inside that byte (0 is the most
    significant bit).  Reading takes bits most significant first and moves the cursor
    by exactly the bits read; indexing past the end of [Data] is a Go
    run-time panic. *)
Record Reader : Type := mkReader {
  Data : list byte;
  Base : Z;
  Off : Z
}.

(** Modelled from the spec: the cursor after one bit of [Reader]. *)
Definition advance_bit (r : Reader) : Reader :=
  if Off r =? 7 then mkReader (Data r) (Base r + 1) 0
  else mkReader (Data r) (Base r) (Off r + 1).

(** Modelled from the spec: the bit loop of [Reader.ReadBit64], most
    significant bit first, [None] on an index past the end. *)
Fixpoint read_bits (n : nat) (r : Reader) (acc : Z) : option (Z * Reader) :=
  match n with
  | O => Some (acc, r)
  | S n' =>
    match index (Data r) (Base r) with
    | None => None
    | Some b =>
      let bit := Z.b2z (Z.testbit (byte_Z b) (7 - Off r)) in
      read_bits n' (advance_bit r) (2 * acc + bit)
    end
  end.

(** Modelled from the spec: [ReadBit64(n)] reads [n] bits as an [int64]. *)
Definition ReadBit64 (r : Reader) (n : Z) : outcome (Z * Reader) :=
  match read_bits (Z.to_nat n) r 0 with
  | Some (v, r') => Ok (wrap64 v, r')
  | None => Panic
  end.

(** Modelled from the spec: [SkipByte(n)] advances the cursor by exactly
    [n] bytes. *)
Definition SkipByte (r : Reader) (n : Z) : Reader :=
  mkReader (Data r) (Base r + n) (Off r).

(** The cursor as a bit position. *)
Definition bitpos (r : Reader) : Z := 8 * Base r + Off r.

End BitReader.
Import BitReader.

(** ** MHAS framing (MPEG-H 3D Audio record) *)

Module Mhas.

Definition MpeghAudioPacketType : list string :=
  [ "PACTYP_FILLDATA"; "PACTYP_MPEGH3DACFG"; "PACTYP_MPEGH3DAFRAME";
    "PACTYP_AUDIOSCENEINFO"; "PACTYP_SYNC"; "PACTYP_SYNCGAP";
    "PACTYP_MARKER"; "PACTYP_CRC16"; "PACTYP_CRC32"; "PACTYP_DESCRIPTOR";
    "PACTYP_USERINTERACTION"; "PACTYP_LOUDNESS_DRC"; "PACTYP_BUFFERINFO";
    "PACTYP_GLOBAL_CRC16"; "PACTYP_GLOBAL_CRC32"; "PACTYP_AUDIOTRUNCATION";
    "PACTYP_GENDATA" ]%string.

Definition tbl (i : nat) : string := nth i MpeghAudioPacketType ""%string.

Definition typeMap : list (Z * string) :=
  [ (0, tbl 0); (1, tbl 1); (2, tbl 2); (3, tbl 3); (6, tbl 4); (7, tbl 5);
    (8, tbl 6); (9, tbl 7); (10, tbl 8); (11, tbl 9); (12, tbl 10);
    (13, tbl 11); (14, tbl 12); (15, tbl 13); (16, tbl 14); (17, tbl 15);
    (18, tbl 16) ].

Fixpoint lookup (k : Z) (m : list (Z * string)) : option string :=
  match m with
  | [] => None
  | (k', v) :: m' => if k =? k' then Some v else lookup k m'
  end.

Definition GetMpeghAudioPacketType (packetType : Z) : string :=
  let actualType := packetType in
  match lookup actualType typeMap with
  | Some ptype => ptype
  | None => ("unknown_" ++ FormatInt packetType)%string
  end.

(** [uint64((1 << nBits) - 1)]: the count is not a constant, so the
    untyped [1] takes the type of the conversion and both the shift and the
    subtraction are on [uint64]. *)
Definition max_of_width (nBits : Z) : outcome Z :=
  s <- of_option (shl_uint64 1 nBits) ;;
  Ok (to_uint64 (s - 1)).

Definition parseEscapedValue (r : Reader) (nBits mBits kBits : Z)
  : outcome (Z * Reader) :=
  '(v, r) <- ReadBit64 r nBits ;;
  let val := to_uint64 v in
  maxVal <- max_of_width nBits ;;
  if val =? maxVal then
    '(v2, r) <- ReadBit64 r mBits ;;
    let val2 := to_uint64 v2 in
    let val := to_uint64 (val + val2) in
    maxVal2 <- max_of_width mBits ;;
    if val2 =? maxVal2 then
      '(v3, r) <- ReadBit64 r kBits ;;
      let val3 := to_uint64 v3 in
      Ok (to_uint64 (val + val3), r)
    else Ok (val, r)
  else Ok (val, r).

(** The three header fields of one MHAS packet, read at the cursor:
    the packet type, the packet length and the reader after them. *)
Definition read_header (r : Reader) : outcome (Z * Z * Reader) :=
  '(packetType, r) <- parseEscapedValue r 3 8 8 ;;
  '(_, r) <- parseEscapedValue r 2 8 32 ;;
  '(packetLength, r) <- parseEscapedValue r 11 24 24 ;;
  Ok (packetType, packetLength, r).

(** The loop state of [parseMhasPackets]. *)
Record scan : Type := mkScan {
  rd : Reader;
  packetTypes : list string;
  isRap : bool
}.

(** What one pass through the loop does. *)
Inductive iter : Type :=
| Exit                 (* the guard failed, or [break] *)
| Resync (s : scan)    (* [continue] after an invalid length *)
| Accept (s : scan)    (* a packet was classified and skipped *)
| Crash.               (* run-time panic *)

Definition mhas_iter (data : list byte) (s : scan) : iter :=
  let r := rd s in
  if Base r <? len data then
    if Base r + 2 >? len data then Exit
    else
      let startPos := Base r in
      let startOff := Off r in
      match read_header r with
      | Ok (packetType, packetLength, r) =>
        if packetLength >? to_uint64 (len data - Base r) then
          Resync (mkScan (mkReader (Data r) (startPos + 1) startOff)
                         (packetTypes s) (isRap s))
        else
          let types :=
            packetTypes s ++ [GetMpeghAudioPacketType (wrap64 packetType)] in
          let rap :=
            if (packetType =? 1) || (packetType =? 6) then true
            else isRap s in
          Accept (mkScan (SkipByte r (wrap64 packetLength)) types rap)
      | _ => Crash
      end
  else Exit.

Fixpoint mhas_loop (fuel : nat) (data : list byte) (s : scan)
  : outcome scan :=
  match fuel with
  | O => Fuel
  | S fuel' =>
    match mhas_iter data s with
    | Exit => Ok s
    | Resync s' => mhas_loop fuel' data s'
    | Accept s' => mhas_loop fuel' data s'
    | Crash => Panic
    end
  end.

(** The byte cursor grows on every pass that continues, and a pass
    continues only while two bytes remain: [len(data) + 1] passes always
    reach the exit (see [mhas_loop_total]). *)
Definition mhas_scan (data : list byte) : outcome scan :=
  mhas_loop (S (List.length data)) data
            (mkScan (mkReader data 0 0) [] false).

End Mhas.

Module MhasRule.

(** The decoding rule in the specification's words, on the bits read as
    unsigned numbers. *)
Definition read_unsigned (r : Reader) (n : Z) : outcome (Z * Reader) :=
  of_option (read_bits (Z.to_nat n) r 0).

Definition as_uint64 (o : outcome (Z * Reader)) : outcome (Z * Reader) :=
  '(v, r) <- o ;; Ok (to_uint64 v, r).

Definition escaped_value_rule (r : Reader) (n m k : Z)
  : outcome (Z * Reader) :=
  '(v, r) <- read_unsigned r n ;;
  if v <? 2 ^ n - 1 then Ok (v, r)
  else
    '(v2, r) <- read_unsigned r m ;;
    if v2 =? 2 ^ m - 1 then
      '(v3, r) <- read_unsigned r k ;;
      Ok (v + v2 + v3, r)
    else Ok (v + v2, r).

(** A reader whose cursor is well formed and inside its data. *)
Definition cursor_ok (r : Reader) : Prop :=
  0 <= Off r < 8 /\ 0 <= Base r <= len (BitReader.Data r).

(** The states the loop of [parseMhasPackets] runs through: the reader is
    over the payload and its cursor is well formed. *)
Definition scan_ok (data : list byte) (s : Mhas.scan) : Prop :=
  BitReader.Data (Mhas.rd s) = data /\ cursor_ok (Mhas.rd s).

End MhasRule.

(** ** Packets and the shared record state *)

Module Pes.

(** Modelled from the spec: [TsPkt] is declared in another file of the
    package; these are the fields the records read (offset, payload-start
    flag, payload).  [Process] overwrites [pkt.Data] through the pointer it
    is given; the embedding threads that as a local value. *)
Record TsPkt : Type := mkTsPkt {
  ts_Pos : Z;
  ts_PUSI : Z;
  ts_Data : list byte
}.

(** Modelled from the spec: [PesPkt], declared in another file of the
    package, with the fields of the specification's PES packet. *)
Record PesPkt : Type := mkPesPkt {
  Pos : Z;
  Pts : Z;
  Dts : Z;
  Pcr : Z;
  Size : Z;
  Data : list byte
}.

(** Modelled from the spec: [IFrameInfo], the random-access event
    ([Pos], [Pts], [Key]), declared in another file of the package. *)
Record IFrameInfo : Type := mkIFrameInfo {
  i_Pos : Z;
  i_Pts : Z;
  i_Key : bool
}.

(** [&PesPkt{}] with [Pos] and [Pcr] assigned. *)
Definition new_pes (pos pcr : Z) : PesPkt := mkPesPkt pos 0 0 pcr 0 [].

(** [p.Size += int64(len(data)); p.Data = append(p.Data, data...)]. *)
Definition accumulate (p : PesPkt) (data : list byte) : PesPkt :=
  mkPesPkt (Pos p) (Pts p) (Dts p) (Pcr p)
           (add64 (Size p) (len data)) (Data p ++ data).

Definition minPesHeaderLen : Z := 19.

(** One row of [<PID>.csv]; the same statements stand in both [Report]
    methods. *)
Definition row_pcr (p : PesPkt) : Z := Z.quot (Pcr p) 300.

Definition row_dts (p : PesPkt) : Z :=
  let dts := Dts p in
  if dts =? 0 then Pts p else dts.

Definition row_cols (p : PesPkt) : list string :=
  let pcr := row_pcr p in
  let dts := row_dts p in
  [ FormatInt (Pos p); FormatInt (Size p); FormatInt pcr;
    FormatInt (Pts p); FormatInt dts; FormatInt (sub64 dts pcr) ].

Definition Join (cols : list string) : string := String.concat ", " cols.

Definition pes_row (p : PesPkt) : string := Join (row_cols p).

(** [filepath.Join(root, name)] for a plain file name (path cleaning is
    not modelled). *)
Definition path (root name : string) : string :=
  if String.eqb root "" then name else (root ++ "/" ++ name)%string.

(** A written file: its path and its lines. *)
Definition file : Type := (string * list string)%type.

Definition timing_file (root : string) (pid : Z) (pkts : list PesPkt) : file :=
  (path root (FormatInt pid ++ ".csv"),
   "Pos, Size, PCR, PTS, DTS, (DTS-PCR)"%string :: map pes_row pkts).

(** A concrete PES header, after ISO/IEC 13818-1, on which the engine is
    run in the examples: header length [9 + data[8]], a 33-bit PTS in
    bytes 9..13 and DTS in bytes 14..18 when their flags in byte 7 are
    set. *)
Definition ts33 (data : list byte) (i : Z) : Z :=
  let b k := byte_Z (at_ data (i + k)) in
  Z.lor (Z.shiftl (Z.land (Z.shiftr (b 0) 1) 7) 30)
   (Z.lor (Z.shiftl (b 1) 22)
    (Z.lor (Z.shiftl (Z.shiftr (b 2) 1) 15)
     (Z.lor (Z.shiftl (b 3) 7) (Z.shiftr (b 4) 1)))).

Definition iso_pes_header (data : list byte) : Z * Z * Z :=
  let flags := byte_Z (at_ data 7) in
  let hlen := 9 + byte_Z (at_ data 8) in
  let pts := if Z.testbit flags 7 then ts33 data 9 else 0 in
  let dts := if Z.testbit flags 6 then ts33 data 14 else 0 in
  (hlen, pts, dts).

Section Engine.

(** The collaborators that stand in other files of the package. *)
Variable PrivLog : Type.
(** [LogAdaptFieldPrivData]: the adaptation-field private-data hook, whose
    effect stays in its own log. *)
Variable priv_hook : TsPkt -> PrivLog -> PrivLog.
(** The PES-header parser primitive: header length, PTS and DTS. *)
Variable pes_header : list byte -> Z * Z * Z.

(** Modelled from the spec: [BaseRecord] is declared in another file of
    the package.  It carries the PID, the report root, the stream's latest clock
    sample [PcrTime], the log of the private-data hook, and the
    random-access events [LogIFrame] has recorded ("logged immediately"). *)
Record BaseRecord : Type := mkBase {
  Pid : Z;
  Root : string;
  PcrTime : Z;
  PrivData : PrivLog;
  IFrames : list IFrameInfo
}.

Definition LogAdaptFieldPrivData (b : BaseRecord) (pkt : TsPkt) : BaseRecord :=
  mkBase (Pid b) (Root b) (PcrTime b) (priv_hook pkt (PrivData b)) (IFrames b).

(** Modelled from the spec: [LogIFrame] records one random-access event. *)
Definition LogIFrame (b : BaseRecord) (i : IFrameInfo) : BaseRecord :=
  mkBase (Pid b) (Root b) (PcrTime b) (PrivData b) (IFrames b ++ [i]).

(** Modelled from the spec: [PesPkt.Read] parses the PES header at the
    start of [data], stores PTS and DTS in the packet and returns the
    header length. *)
Definition Read (p : PesPkt) (data : list byte) : PesPkt * Z :=
  let '(hlen, pts, dts) := pes_header data in
  (mkPesPkt (Pos p) pts dts (Pcr p) (Size p) (Data p), hlen).

End Engine.

Arguments mkBase {PrivLog}.
Arguments Pid {PrivLog}.
Arguments Root {PrivLog}.
Arguments PcrTime {PrivLog}.
Arguments PrivData {PrivLog}.
Arguments IFrames {PrivLog}.
Arguments LogAdaptFieldPrivData {PrivLog}.
Arguments LogIFrame {PrivLog}.

End Pes.
Import Pes.

(** ** The H.266 record ([H266Record] in [internal/h266.go]) *)

Module H266Rec.
Import H266.

Record NalInfo : Type := mkNalInfo {
  n_Pos : Z;
  n_Pts : Z;
  Nals : list string
}.

Section Engine.

Variable PrivLog : Type.
Variable priv_hook : TsPkt -> PrivLog -> PrivLog.
Variable pes_header : list byte -> Z * Z * Z.

(** [curpkt] is a pointer that may be nil.  [Pkts] holds pointers to the
    packets [curpkt] pointed to; a packet is not written again once
    [Process] has replaced [curpkt], so its value at that moment is
    stored.  [Flush] appends [curpkt] and leaves it current: until the next
    PUSI packet that entry of [Pkts] and [curpkt] are one object in the
    source, and a packet without PUSI processed in between grows the entry
    as well.  The record keeps the value the packet had when it was
    appended; it follows the source for every sequence of [Process] calls
    from a record without a current packet and a closing [Flush], and for
    what is said of the current packet, the logs and the lengths of the
    histories in every case. *)
Record H266Record : Type := mkRec {
  base : BaseRecord PrivLog;
  curpkt : option PesPkt;
  Pkts : list PesPkt;
  NalInfos : list NalInfo;
  WorkaroundPESFlag : bool;
  WorkaroundPES : list byte
}.

Definition minVvcPesHeaderLen : Z := 19.

Definition set_base (s : H266Record) b :=
  mkRec b (curpkt s) (Pkts s) (NalInfos s)
        (WorkaroundPESFlag s) (WorkaroundPES s).
Definition set_curpkt (s : H266Record) c :=
  mkRec (base s) c (Pkts s) (NalInfos s)
        (WorkaroundPESFlag s) (WorkaroundPES s).
Definition set_workaround (s : H266Record) flag buf :=
  mkRec (base s) (curpkt s) (Pkts s) (NalInfos s) flag buf.
(** [s.NalInfos = append(...)] and [s.Pkts = append(s.Pkts, s.curpkt)]:
    the packet is stored by value (see [H266Record]). *)
Definition push_history (s : H266Record) (p : PesPkt) (n : NalInfo) :=
  mkRec (base s) (curpkt s) (Pkts s ++ [p]) (NalInfos s ++ [n])
        (WorkaroundPESFlag s) (WorkaroundPES s).

(** The [for _, nal := range nals] loop of [Process]: one [LogIFrame]
    call for every name that is a random-access NAL. *)
Definition log_rap_nals (b : BaseRecord PrivLog) (cur : PesPkt)
    (nals : list string) : BaseRecord PrivLog :=
  fold_left
    (fun b nal =>
       if is_rap_nal nal
       then LogIFrame b (mkIFrameInfo (Pos cur) (Pts cur) true)
       else b)
    nals b.

(** [if s.curpkt != nil { ... }] at the head of the PUSI branch. *)
Definition finalize_on_pusi (s : H266Record) : H266Record :=
  match curpkt s with
  | Some cur =>
    let nals := ParseVvcNalUnits (Data cur) in
    let s := set_base s (log_rap_nals (base s) cur nals) in
    push_history s cur (mkNalInfo (Pos cur) (Pts cur) nals)
  | None => s
  end.

(** The PUSI branch: finalize, start a new current packet, then parse the
    header or enter workaround mode.  Returns the record and [pkt.Data]. *)
Definition on_pusi (s : H266Record) (pkt : TsPkt)
  : outcome (H266Record * list byte) :=
  let s := finalize_on_pusi s in
  let cur := new_pes (ts_Pos pkt) (PcrTime (base s)) in
  let s := set_curpkt s (Some cur) in
  let data := ts_Data pkt in
  if len data >=? minVvcPesHeaderLen then
    if bytes_eqb startcode (slice data 0 3) then
      let '(cur, hlen) := Read pes_header cur data in
      data <- of_option (slice_from data hlen) ;;
      Ok (set_curpkt s (Some cur), data)
    else Ok (s, data)
  else Ok (set_workaround s true [], data).

(** The [if s.WorkaroundPESFlag] block. *)
Definition on_workaround (s : H266Record) (data : list byte)
  : outcome (H266Record * list byte) :=
  if WorkaroundPESFlag s then
    let buf := WorkaroundPES s ++ data in
    let s := set_workaround s true buf in
    let data := [] in
    if len buf >=? minVvcPesHeaderLen then
      if bytes_eqb startcode (slice buf 0 3) then
        match curpkt s with
        | Some cur =>
          let '(cur, hlen) := Read pes_header cur buf in
          data <- of_option (slice_from buf hlen) ;;
          Ok (set_workaround (set_curpkt s (Some cur)) false buf, data)
        | None => Panic
        end
      else Ok (s, data)
    else Ok (s, data)
  else Ok (s, data).

(** The closing [if s.curpkt != nil] block. *)
Definition on_accumulate (s : H266Record) (data : list byte) : H266Record :=
  match curpkt s with
  | Some cur => set_curpkt s (Some (accumulate cur data))
  | None => s
  end.

(** The first block of [Process]: the private-data hook, then the PUSI
    branch when the packet has PUSI.  Returns the record and [pkt.Data] as
    they reach the workaround block. *)
Definition pusi_block (s : H266Record) (pkt : TsPkt)
  : outcome (H266Record * list byte) :=
  let s := set_base s (LogAdaptFieldPrivData priv_hook (base s) pkt) in
  if ts_PUSI pkt =? 1 then on_pusi s pkt else Ok (s, ts_Data pkt).

Definition Process (s : H266Record) (pkt : TsPkt) : outcome H266Record :=
  let s := set_base s (LogAdaptFieldPrivData priv_hook (base s) pkt) in
  '(s, data) <-
     (if ts_PUSI pkt =? 1 then on_pusi s pkt else Ok (s, ts_Data pkt)) ;;
  '(s, data) <- on_workaround s data ;;
  Ok (on_accumulate s data).

(** [Flush] leaves [curpkt] in place. *)
Definition Flush (s : H266Record) : H266Record :=
  match curpkt s with
  | Some cur =>
    let nals := ParseVvcNalUnits (Data cur) in
    push_history s cur (mkNalInfo (Pos cur) (Pts cur) nals)
  | None => s
  end.

Definition nal_row (n : NalInfo) : string :=
  Join [ FormatInt (n_Pos n); FormatInt (n_Pts n); Join (Nals n) ].

(** [Report(root)]: the files written, in order ([os.Create] is taken to
    succeed). *)
Definition Report (s : H266Record) (root : string) : list file :=
  let pid := FormatInt (Pid (base s)) in
  [ timing_file root (Pid (base s)) (Pkts s);
    (path root (pid ++ "-nal" ++ ".csv"),
     "Pos, PTS, NAL units"%string :: map nal_row (NalInfos s)) ].

(** Feeding a sequence of transport packets, in order. *)
Fixpoint run (s : H266Record) (pkts : list TsPkt) : outcome H266Record :=
  match pkts with
  | [] => Ok s
  | pkt :: rest => s' <- Process s pkt ;; run s' rest
  end.

End Engine.

Arguments mkRec {PrivLog}.
Arguments base {PrivLog}.
Arguments curpkt {PrivLog}.
Arguments Pkts {PrivLog}.
Arguments NalInfos {PrivLog}.
Arguments WorkaroundPESFlag {PrivLog}.
Arguments WorkaroundPES {PrivLog}.
Arguments Flush {PrivLog}.
Arguments Report {PrivLog}.
Arguments finalize_on_pusi {PrivLog}.
Arguments on_accumulate {PrivLog}.
Arguments log_rap_nals {PrivLog}.

End H266Rec.

(** ** The MPEG-H 3D Audio record ([MpeghAudioRecord]) *)

Module MpeghRec.
Import Mhas.

Record MhasPacketInfo : Type := mkMhasInfo {
  m_Pos : Z;
  m_Pts : Z;
  PacketTypes : list string
}.

Definition FormatBool (b : bool) : string :=
  if b then "true"%string else "false"%string.

Section Engine.

Variable PrivLog : Type.
Variable priv_hook : TsPkt -> PrivLog -> PrivLog.
Variable pes_header : list byte -> Z * Z * Z.

(** [RapLog] is nil until the first event; afterwards it is the file
    [<PID>-rap.csv], kept here as the lines written to it. *)
Record MpeghAudioRecord : Type := mkRec {
  base : BaseRecord PrivLog;
  curpkt : option PesPkt;
  Pkts : list PesPkt;
  MhasPackets : list MhasPacketInfo;
  RapFrames : list Z;
  RapLog : option (list string);
  WorkaroundPESFlag : bool;
  WorkaroundPES : list byte
}.

Definition minMpeghAudioPesHeaderLen : Z := 19.

Definition set_base (s : MpeghAudioRecord) b :=
  mkRec b (curpkt s) (Pkts s) (MhasPackets s) (RapFrames s) (RapLog s)
        (WorkaroundPESFlag s) (WorkaroundPES s).
Definition set_curpkt (s : MpeghAudioRecord) c :=
  mkRec (base s) c (Pkts s) (MhasPackets s) (RapFrames s) (RapLog s)
        (WorkaroundPESFlag s) (WorkaroundPES s).
Definition set_workaround (s : MpeghAudioRecord) flag buf :=
  mkRec (base s) (curpkt s) (Pkts s) (MhasPackets s) (RapFrames s) (RapLog s)
        flag buf.
Definition set_MhasPackets (s : MpeghAudioRecord) m :=
  mkRec (base s) (curpkt s) (Pkts s) m (RapFrames s) (RapLog s)
        (WorkaroundPESFlag s) (WorkaroundPES s).
Definition set_rap (s : MpeghAudioRecord) frames log :=
  mkRec (base s) (curpkt s) (Pkts s) (MhasPackets s) frames log
        (WorkaroundPESFlag s) (WorkaroundPES s).
(** [s.Pkts = append(s.Pkts, s.curpkt)]: the packet is stored by value.
    As in the H.266 record, after [Flush] the entry and [curpkt] are one
    object in the source until the next PUSI packet; the record keeps the
    value at the time of the append. *)
Definition push_pkt (s : MpeghAudioRecord) (p : PesPkt) :=
  mkRec (base s) (curpkt s) (Pkts s ++ [p]) (MhasPackets s) (RapFrames s)
        (RapLog s) (WorkaroundPESFlag s) (WorkaroundPES s).

(** [LogRap]: create the file with its header on first use ([os.Create]
    is taken to succeed), then write one row. *)
Definition LogRap (s : MpeghAudioRecord) (i : IFrameInfo) : MpeghAudioRecord :=
  let log :=
    match RapLog s with
    | None => ["Pos, PTS, Key"%string]
    | Some lines => lines
    end in
  let cols :=
    [ FormatInt (i_Pos i); FormatInt (i_Pts i); FormatBool (i_Key i) ] in
  set_rap s (RapFrames s) (Some (log ++ [Join cols])).

(** [parseMhasPackets]: the scan, then the record for the payload when a
    packet was classified.  Returns the record and [isRap]. *)
Definition parseMhasPackets (s : MpeghAudioRecord) (data : list byte)
    (pos pts : Z) : outcome (MpeghAudioRecord * bool) :=
  sc <- mhas_scan data ;;
  let s :=
    if len (packetTypes sc) >? 0
    then set_MhasPackets s
           (MhasPackets s ++ [mkMhasInfo pos pts (packetTypes sc)])
    else s in
  Ok (s, isRap sc).

Definition finalize_on_pusi (s : MpeghAudioRecord)
  : outcome MpeghAudioRecord :=
  match curpkt s with
  | Some cur =>
    '(s, isRap) <- parseMhasPackets s (Data cur) (Pos cur) (Pts cur) ;;
    let s :=
      if isRap : bool then
        let s := LogRap s (mkIFrameInfo (Pos cur) (Pts cur) true) in
        set_rap s (RapFrames s ++ [Pos cur]) (RapLog s)
      else s in
    Ok (push_pkt s cur)
  | None => Ok s
  end.

Definition on_pusi (s : MpeghAudioRecord) (pkt : TsPkt)
  : outcome (MpeghAudioRecord * list byte) :=
  s <- finalize_on_pusi s ;;
  let cur := new_pes (ts_Pos pkt) (PcrTime (base s)) in
  let s := set_curpkt s (Some cur) in
  let data := ts_Data pkt in
  if len data >=? minMpeghAudioPesHeaderLen then
    if bytes_eqb startcode (slice data 0 3) then
      let '(cur, hlen) := Read pes_header cur data in
      data <- of_option (slice_from data hlen) ;;
      Ok (set_curpkt s (Some cur), data)
    else Ok (s, data)
  else Ok (set_workaround s true [], data).

Definition on_workaround (s : MpeghAudioRecord) (data : list byte)
  : outcome (MpeghAudioRecord * list byte) :=
  if WorkaroundPESFlag s then
    let buf := WorkaroundPES s ++ data in
    let s := set_workaround s true buf in
    let data := [] in
    if len buf >=? minMpeghAudioPesHeaderLen then
      if bytes_eqb startcode (slice buf 0 3) then
        match curpkt s with
        | Some cur =>
          let '(cur, hlen) := Read pes_header cur buf in
          data <- of_option (slice_from buf hlen) ;;
          Ok (set_workaround (set_curpkt s (Some cur)) false buf, data)
        | None => Panic
        end
      else Ok (s, data)
    else Ok (s, data)
  else Ok (s, data).

Definition on_accumulate (s : MpeghAudioRecord) (data : list byte)
  : MpeghAudioRecord :=
  match curpkt s with
  | Some cur => set_curpkt s (Some (accumulate cur data))
  | None => s
  end.

(** The first block of [Process]: the private-data hook, then the PUSI
    branch when the packet has PUSI.  Returns the record and [pkt.Data] as
    they reach the workaround block. *)
Definition pusi_block (s : MpeghAudioRecord) (pkt : TsPkt)
  : outcome (MpeghAudioRecord * list byte) :=
  let s := set_base s (LogAdaptFieldPrivData priv_hook (base s) pkt) in
  if ts_PUSI pkt =? 1 then on_pusi s pkt else Ok (s, ts_Data pkt).

Definition Process (s : MpeghAudioRecord) (pkt : TsPkt)
  : outcome MpeghAudioRecord :=
  let s := set_base s (LogAdaptFieldPrivData priv_hook (base s) pkt) in
  '(s, data) <-
     (if ts_PUSI pkt =? 1 then on_pusi s pkt else Ok (s, ts_Data pkt)) ;;
  '(s, data) <- on_workaround s data ;;
  Ok (on_accumulate s data).

(** [Flush] drops the flag [parseMhasPackets] returns. *)
Definition Flush (s : MpeghAudioRecord) : outcome MpeghAudioRecord :=
  match curpkt s with
  | Some cur =>
    '(s, _) <- parseMhasPackets s (Data cur) (Pos cur) (Pts cur) ;;
    Ok (push_pkt s cur)
  | None => Ok s
  end.

Definition mhas_row (m : MhasPacketInfo) : string :=
  Join [ FormatInt (m_Pos m); FormatInt (m_Pts m); Join (PacketTypes m) ].

Definition mhas_file (s : MpeghAudioRecord) (root : string) : file :=
  (path root (FormatInt (Pid (base s)) ++ "-mhas" ++ ".csv"),
   "Pos, PTS, MHAS Packet Types"%string :: map mhas_row (MhasPackets s)).

(** [Report(root)]: the files written by this call, in order ([os.Create]
    is taken to succeed; closing [RapLog] writes nothing). *)
Definition Report (s : MpeghAudioRecord) (root : string) : list file :=
  timing_file root (Pid (base s)) (Pkts s)
  :: (if len (MhasPackets s) >? 0 then [mhas_file s root] else []).

(** Feeding a sequence of transport packets, in order. *)
Fixpoint run (s : MpeghAudioRecord) (pkts : list TsPkt)
  : outcome MpeghAudioRecord :=
  match pkts with
  | [] => Ok s
  | pkt :: rest => s' <- Process s pkt ;; run s' rest
  end.

End Engine.

Arguments mkRec {PrivLog}.
Arguments base {PrivLog}.
Arguments curpkt {PrivLog}.
Arguments Pkts {PrivLog}.
Arguments MhasPackets {PrivLog}.
Arguments RapFrames {PrivLog}.
Arguments RapLog {PrivLog}.
Arguments WorkaroundPESFlag {PrivLog}.
Arguments WorkaroundPES {PrivLog}.
Arguments parseMhasPackets {PrivLog}.
Arguments finalize_on_pusi {PrivLog}.
Arguments Flush {PrivLog}.
Arguments Report {PrivLog}.
Arguments mhas_file {PrivLog}.
Arguments LogRap {PrivLog}.
Arguments on_accumulate {PrivLog}.

End MpeghRec.

(** ** Sample inputs *)

Module Samples.
Import H266 Mhas.

(** One marker followed by exactly two bytes. *)
Definition nal_short : list byte := [x00; x00; x01; x00; x48].

(** Two markers three bytes apart. *)
Definition nal_adjacent : list byte :=
  [x00; x00; x01; x00; x00; x01; x00; x48; x00; x00].

(** Two markers, a clean-random-access and an IDR unit. *)
Definition nal_two : list byte :=
  [x00; x00; x01; x00; x48; x00; x00; x00; x01; x00; x40; x00; x00].

(** An IDR unit, then a marker followed by exactly two bytes at the end. *)
Definition nal_tail : list byte :=
  [x00; x00; x01; x00; x40; x00; x00; x00; x01; x00; x48].

(** An IDR picture in two slices. *)
Definition idr_two_slices : list byte :=
  [x00; x00; x01; x00; x40; x00; x00; x00; x01; x00; x40; x00; x00; x00].

(** Escaped values with widths (3, 8, 8): 5 is [101]; 10 is [111]
    followed by [00000011]. *)
Definition esc_five : list byte := [xa0].
Definition esc_ten : list byte := [xe0; x60].

(** A first packet declaring 0x720 bytes, then, one byte further, a
    configuration packet of length 1. *)
Definition mhas_resync : list byte := [x27; x20; x01; xaa].

(** The collaborators for the examples: no private-data log, the ISO PES
    header. *)
Definition no_hook (_ : TsPkt) (u : unit) : unit := u.

Definition base0 : BaseRecord unit := mkBase 256 "" 0 tt [].

(** A 14-byte PES header with PTS 1000 and no DTS. *)
Definition pes_header14 : list byte :=
  [x00; x00; x01; xe0; x00; x00; x80; x80; x05; x21; x00; x01; x07; xd1].

(** A configuration packet of length 3. *)
Definition mhas_cfg : list byte := [x20; x03; xaa; xbb; xcc].

(** Transport packets: a PES packet carrying the two-slice IDR picture, one
    carrying the configuration packet, and the start of the next PES
    packet. *)
Definition idr_pusi_pkt : TsPkt := mkTsPkt 188 1 (pes_header14 ++ idr_two_slices).
Definition mhas_pusi_pkt : TsPkt := mkTsPkt 188 1 (pes_header14 ++ mhas_cfg).
Definition pusi_pkt : TsPkt :=
  mkTsPkt 376 1 (pes_header14 ++ [x00; x00; x01; x00; x40]).

(** Fresh records, and the records after the first packet above: their
    current packet waits to be finalized. *)
Definition h266_init : H266Rec.H266Record unit :=
  H266Rec.mkRec base0 None [] [] false [].

Definition mpegh_init : MpeghRec.MpeghAudioRecord unit :=
  MpeghRec.mkRec base0 None [] [] [] None false [].

Definition h266_outstanding : H266Rec.H266Record unit :=
  H266Rec.mkRec base0 (Some (mkPesPkt 188 1000 0 0 14 idr_two_slices))
                [] [] false [].

Definition mpegh_outstanding : MpeghRec.MpeghAudioRecord unit :=
  MpeghRec.mkRec base0 (Some (mkPesPkt 188 1000 0 0 5 mhas_cfg))
                 [] [] [] None false [].

Definition rap_event : IFrameInfo := mkIFrameInfo 188 1000 true.

(** A PES header split over two transport packets: ten bytes with PUSI,
    then the rest and eight payload bytes. *)
Definition workaround_head : list byte :=
  [x00; x00; x01; xe0; x00; x00; x80; x80; x05; x21].

Definition workaround_tail : list byte :=
  [x00; x01; x07; xd1; x00; x00; x01; x00; x40; x00; x00; x00].

Definition tail_pkt : TsPkt := mkTsPkt 376 0 workaround_tail.


Definition mpegh_workaround : MpeghRec.MpeghAudioRecord unit :=
  MpeghRec.mkRec base0 (Some (new_pes 188 0)) [] [] [] None true
                 workaround_head.


Definition timed_pkt : PesPkt := mkPesPkt 188 1000 0 300000 14 idr_two_slices.

End Samples.

(** ** Invariants of the records *)

Module Laws.
Import H266.

(** The structural-unit record [Process] and [Flush] build for a packet. *)
Definition nal_of (p : PesPkt) : H266Rec.NalInfo :=
  H266Rec.mkNalInfo (Pos p) (Pts p) (ParseVvcNalUnits (Data p)).

(** The NAL history runs in step with the packet history. *)
Definition nal_in_step {PrivLog} (s : H266Rec.H266Record PrivLog) : Prop :=
  H266Rec.NalInfos s = map nal_of (H266Rec.Pkts s).

(** [Size] counts the bytes of [Data] (as an [int64]). *)
Definition size_ok (p : PesPkt) : Prop := Size p = wrap64 (len (Data p)).

Definition opt_ok (o : option PesPkt) : Prop :=
  match o with
  | Some p => size_ok p
  | None => True
  end.

Definition h266_sizes_ok {PrivLog} (s : H266Rec.H266Record PrivLog) : Prop :=
  Forall size_ok (H266Rec.Pkts s) /\ opt_ok (H266Rec.curpkt s).

(** The names of the two packet types [parseMhasPackets] takes as
    random-access indicators. *)
Definition is_rap_name (name : string) : bool :=
  String.eqb name "PACTYP_MPEGH3DACFG" || String.eqb name "PACTYP_SYNC".

(** What the passes of the MHAS loop keep: the cursor on a byte boundary,
    two bytes read for every name, and the flag in step with the names. *)
Definition scan_inv (s : Mhas.scan) : Prop :=
  Off (Mhas.rd s) = 0
  /\ 2 * len (Mhas.packetTypes s) <= Base (Mhas.rd s)
  /\ Mhas.isRap s = existsb is_rap_name (Mhas.packetTypes s).

(** The codes [typeMap] has a name for. *)
Definition known_code (t : Z) : bool :=
  ((0 <=? t) && (t <=? 3)) || ((6 <=? t) && (t <=? 18)).

(** [<PID>-rap.csv] against [RapFrames]: no file before the first event,
    afterwards the header and one row per entry. *)
Definition rap_log_ok {PrivLog} (s : MpeghRec.MpeghAudioRecord PrivLog)
  : Prop :=
  match MpeghRec.RapLog s with
  | None => MpeghRec.RapFrames s = []
  | Some lines =>
    MpeghRec.RapFrames s <> []
    /\ List.length lines = S (List.length (MpeghRec.RapFrames s))
    /\ hd ""%string lines = "Pos, PTS, Key"%string
  end.

(** No record of the MHAS history is empty, and there is at most one per
    packet of the packet history. *)
Definition mhas_history_ok {PrivLog} (s : MpeghRec.MpeghAudioRecord PrivLog)
  : Prop :=
  Forall (fun m => MpeghRec.PacketTypes m <> []) (MpeghRec.MhasPackets s)
  /\ (List.length (MpeghRec.MhasPackets s)
      <= List.length (MpeghRec.Pkts s))%nat.

(** Two records with the same four histories. *)
Definition same_histories {PrivLog} (a b : MpeghRec.MpeghAudioRecord PrivLog)
  : Prop :=
  MpeghRec.Pkts a = MpeghRec.Pkts b
  /\ MpeghRec.MhasPackets a = MpeghRec.MhasPackets b
  /\ MpeghRec.RapFrames a = MpeghRec.RapFrames b
  /\ MpeghRec.RapLog a = MpeghRec.RapLog b.

(** A packet that does not start a PES packet. *)
Definition no_pusi (pkt : TsPkt) : Prop := ts_PUSI pkt <> 1.

End Laws.

(** * Properties *)

(** ** Integers and slices *)

Lemma wrap64_id z : in_int64 z -> wrap64 z = z.
Proof.
  unfold in_int64, wrap64. intros H.
  rewrite Z.mod_small; lia.
Qed.

Lemma to_uint64_id z : 0 <= z < 2 ^ 64 -> to_uint64 z = z.
Proof. unfold to_uint64. intros H. now apply Z.mod_small. Qed.

Lemma byte_Z_range b : 0 <= byte_Z b < 256.
Proof.
  unfold byte_Z. pose proof (Byte.to_N_bounded b) as H. lia.
Qed.

Lemma len_app {A} (a b : list A) : len (a ++ b) = len a + len b.
Proof. unfold len. rewrite length_app. lia. Qed.

Lemma len_nonneg {A} (a : list A) : 0 <= len a.
Proof. unfold len. lia. Qed.

Lemma bytes_eqb_eq a b : bytes_eqb a b = true <-> a = b.
Proof.
  unfold bytes_eqb. destruct (list_eq_dec Byte.byte_eq_dec a b); split;
    intros; congruence.
Qed.

(** ** The NAL-unit table *)

Module H266Facts.
Import H266.

Lemma nal_index_range b : 0 <= nal_index b < 32.
Proof.
  unfold nal_index.
  change 0x1F with (Z.ones 5). rewrite Z.land_ones by lia.
  change (2 ^ 5) with 32. apply Z.mod_pos_bound. lia.
Qed.

Lemma table_len : len VvcNalUnitType = 32.
Proof. reflexivity. Qed.

Lemma GetVvcNalUnitType_nth b :
  GetVvcNalUnitType b = nth (Z.to_nat (nal_index b)) VvcNalUnitType "unknown"%string.
Proof.
  unfold GetVvcNalUnitType. cbv zeta.
  pose proof (nal_index_range b) as H.
  rewrite table_len.
  destruct (nal_index b <? 32) eqn:E; [reflexivity|].
  apply Z.ltb_ge in E. lia.
Qed.

Lemma GetVvcNalUnitType_in b : In (GetVvcNalUnitType b) VvcNalUnitType.
Proof.
  rewrite GetVvcNalUnitType_nth. apply nth_In.
  pose proof (nal_index_range b) as H.
  change (List.length VvcNalUnitType) with 32%nat. lia.
Qed.

Lemma vvc_scan_in fuel data : forall pos nals,
  Forall (fun n => In n VvcNalUnitType) nals ->
  Forall (fun n => In n VvcNalUnitType) (vvc_scan fuel data pos nals).
Proof.
  induction fuel as [|fuel IH]; intros pos nals H; simpl; [exact H|].
  destruct (pos + 5 <? len data); [|exact H].
  destruct (bytes_eqb startcode (slice data pos (pos + startlen))).
  - apply IH. destruct (pos + startlen + 1 <? len data); [|exact H].
    apply Forall_app. split; [exact H|].
    constructor; [apply GetVvcNalUnitType_in | constructor].
  - apply IH, H.
Qed.

(** The marker at an offset, byte by byte. *)
Lemma marker_at_nth data (p : nat) :
  marker_at data (Z.of_nat p) = true <->
  nth_error data p = Some x00 /\ nth_error data (S p) = Some x00
  /\ nth_error data (S (S p)) = Some x01.
Proof.
  unfold marker_at. rewrite bytes_eqb_eq. unfold slice, startcode.
  replace (Z.to_nat (Z.of_nat p + 3 - Z.of_nat p)) with 3%nat by lia.
  rewrite Nat2Z.id.
  revert data. induction p as [|p IH]; intros data.
  - destruct data as [|a [|b [|c l]]]; simpl; split; intros H;
      try discriminate; try (destruct H as (H1 & H2 & H3); congruence).
    injection H as -> -> ->. auto.
  - destruct data as [|a l]; simpl.
    + split; [discriminate|]. intros (H & _). discriminate.
    + apply IH.
Qed.

Lemma marker_needs_three data (p : nat) :
  marker_at data (Z.of_nat p) = true -> Z.of_nat p + 3 <= len data.
Proof.
  intros H. apply marker_at_nth in H. destruct H as (_ & _ & H).
  assert (S (S p) < List.length data)%nat by (apply nth_error_Some; congruence).
  unfold len. lia.
Qed.

Lemma marker_not_next data (p : nat) :
  marker_at data (Z.of_nat p) = true ->
  marker_at data (Z.of_nat (S p)) = false
  /\ marker_at data (Z.of_nat (S (S p))) = false.
Proof.
  intros H. apply marker_at_nth in H. destruct H as (H0 & H1 & H2).
  split.
  - destruct (marker_at data (Z.of_nat (S p))) eqn:E; [|reflexivity].
    apply marker_at_nth in E. destruct E as (_ & E & _). congruence.
  - destruct (marker_at data (Z.of_nat (S (S p)))) eqn:E; [|reflexivity].
    apply marker_at_nth in E. destruct E as (E & _). congruence.
Qed.

Lemma markers_from_S data p n :
  markers_from data p (S n) =
  (if marker_at data (Z.of_nat p) then [Z.of_nat p] else [])
  ++ markers_from data (S p) n.
Proof.
  unfold markers_from. simpl.
  destruct (marker_at data (Z.of_nat p)); reflexivity.
Qed.

Lemma markers_from_in data p n q :
  In q (markers_from data p n) <->
  exists k, q = Z.of_nat k /\ (p <= k < p + n)%nat
            /\ marker_at data q = true.
Proof.
  unfold markers_from. rewrite filter_In, in_map_iff. split.
  - intros ((k & <- & Hk) & Hm). apply in_seq in Hk. eauto.
  - intros (k & -> & Hk & Hm). split; [|exact Hm].
    exists k. split; [reflexivity|]. apply in_seq. exact Hk.
Qed.

Lemma markers_in data q :
  In q (markers data) <->
  exists k, q = Z.of_nat k /\ marker_at data q = true.
Proof.
  unfold markers. rewrite markers_from_in. split.
  - intros (k & -> & _ & H). eauto.
  - intros (k & -> & H). exists k. repeat split; [lia| |exact H].
    apply marker_needs_three in H. unfold len in H. lia.
Qed.

End H266Facts.

Module ScanFacts.
Import H266 H266Facts.

Section Scan.

Variable data : list byte.
Hypothesis room : forall q, In q (markers data) -> q + 5 < len data.
Hypothesis apart : forall q, In q (markers data) -> ~ In (q + 3) (markers data).

Lemma no_marker_near_end (p : nat) :
  len data <= Z.of_nat p + 5 ->
  markers_from data p (List.length data - p) = [].
Proof.
  intros Hend.
  destruct (markers_from data p (List.length data - p)) as [|q l] eqn:E;
    [reflexivity|].
  assert (Hin : In q (markers_from data p (List.length data - p)))
    by (rewrite E; left; reflexivity).
  apply markers_from_in in Hin. destruct Hin as (k & -> & Hk & Hm).
  assert (In (Z.of_nat k) (markers data)) by (apply markers_in; eauto).
  specialize (room _ H). lia.
Qed.

Lemma skip_after_marker (p : nat) :
  Z.of_nat p + 5 < len data ->
  marker_at data (Z.of_nat p) = true ->
  markers_from data (S p) (List.length data - S p) =
  markers_from data (p + 4) (List.length data - (p + 4)).
Proof.
  intros Hlt Hm. unfold len in Hlt.
  destruct (marker_not_next data p Hm) as (H1 & H2).
  assert (H3 : marker_at data (Z.of_nat (S (S (S p)))) = false).
  { destruct (marker_at data (Z.of_nat (S (S (S p))))) eqn:E; [|reflexivity].
    exfalso. apply (apart (Z.of_nat p)).
    - apply markers_in. eauto.
    - apply markers_in. exists (S (S (S p))). split; [lia|].
      replace (Z.of_nat p + 3) with (Z.of_nat (S (S (S p)))) by lia. exact E. }
  replace (List.length data - S p)%nat
    with (S (S (S (List.length data - (p + 4))))) by lia.
  rewrite !markers_from_S, H1, H2, H3. simpl.
  replace (S (S (S (S p)))) with (p + 4)%nat by lia. reflexivity.
Qed.

Lemma vvc_scan_markers : forall fuel (p : nat) nals,
  (List.length data <= p + fuel)%nat ->
  vvc_scan fuel data (Z.of_nat p) nals =
  nals ++ map (classify_at data)
              (markers_from data p (List.length data - p)).
Proof.
  induction fuel as [|fuel IH]; intros p nals Hfuel.
  - simpl. replace (List.length data - p)%nat with 0%nat by lia.
    simpl. now rewrite app_nil_r.
  - simpl. destruct (Z.of_nat p + 5 <? len data) eqn:Hguard.
    + apply Z.ltb_lt in Hguard.
      change (bytes_eqb startcode
                (slice data (Z.of_nat p) (Z.of_nat p + startlen)))
        with (marker_at data (Z.of_nat p)).
      assert (Hlen : (List.length data - p = S (List.length data - S p))%nat)
        by (unfold len in Hguard; lia).
      rewrite Hlen, markers_from_S.
      destruct (marker_at data (Z.of_nat p)) eqn:Hm.
      * replace (Z.of_nat p + startlen + 1) with (Z.of_nat (p + 4))
          by (change startlen with 3; lia).
        assert (Hin : (Z.of_nat (p + 4) <? len data) = true)
          by (apply Z.ltb_lt; lia).
        rewrite Hin, IH by lia.
        rewrite (skip_after_marker p Hguard Hm).
        rewrite <- app_assoc. simpl. unfold classify_at at 2.
        replace (Z.of_nat p + 4) with (Z.of_nat (p + 4)) by lia.
        reflexivity.
      * replace (Z.of_nat p + 1) with (Z.of_nat (S p)) by lia.
        rewrite IH by lia. reflexivity.
    + apply Z.ltb_ge in Hguard.
      rewrite no_marker_near_end by lia. now rewrite app_nil_r.
Qed.

End Scan.

(** More fuel than the slice is long changes nothing. *)
Lemma vvc_scan_fuel data : forall fuel (p : nat) nals k,
  (List.length data <= p + fuel)%nat ->
  vvc_scan (fuel + k) data (Z.of_nat p) nals
  = vvc_scan fuel data (Z.of_nat p) nals.
Proof.
  induction fuel as [|fuel IH]; intros p nals k Hfuel.
  - simpl. destruct k; simpl; [reflexivity|].
    destruct (Z.of_nat p + 5 <? len data) eqn:E; [|reflexivity].
    apply Z.ltb_lt in E. unfold len in E. lia.
  - simpl. destruct (Z.of_nat p + 5 <? len data) eqn:E; [|reflexivity].
    destruct (bytes_eqb _ _).
    + replace (Z.of_nat p + startlen + 1) with (Z.of_nat (p + 4))
        by (change startlen with 3; lia).
      apply IH. lia.
    + replace (Z.of_nat p + 1) with (Z.of_nat (S p)) by lia.
      apply IH. lia.
Qed.

End ScanFacts.

(** ** The bit reader and the escaped-value decoder *)

Module MhasFacts.
Import Mhas MhasRule.

Lemma read_bits_value n : forall r acc v r',
  read_bits n r acc = Some (v, r') ->
  acc * 2 ^ Z.of_nat n <= v < (acc + 1) * 2 ^ Z.of_nat n.
Proof.
  induction n as [|n IH]; intros r acc v r' H.
  - simpl in H. injection H as <- <-. simpl. lia.
  - cbn [read_bits] in H.
    destruct (index (BitReader.Data r) (Base r)) as [b|]; [|discriminate].
    apply IH in H.
    rewrite Nat2Z.inj_succ, Z.pow_succ_r by lia.
    destruct (Z.testbit (byte_Z b) (7 - Off r)); simpl Z.b2z in H; nia.
Qed.

Lemma index_some data i b :
  index data i = Some b -> 0 <= i < len data.
Proof.
  unfold index. destruct (i <? 0) eqn:E1; [discriminate|].
  destruct (len data <=? i) eqn:E2; [discriminate|]. intros _.
  apply Z.ltb_ge in E1. apply Z.leb_gt in E2. lia.
Qed.

Lemma read_bits_cursor n : forall r acc v r',
  cursor_ok r ->
  read_bits n r acc = Some (v, r') ->
  cursor_ok r' /\ BitReader.Data r' = BitReader.Data r
  /\ bitpos r' = bitpos r + Z.of_nat n.
Proof.
  induction n as [|n IH]; intros r acc v r' Hok H.
  - simpl in H. injection H as <- <-. repeat split; try apply Hok.
    unfold bitpos. lia.
  - cbn [read_bits] in H.
    destruct (index (BitReader.Data r) (Base r)) as [b|] eqn:Hi; [|discriminate].
    apply index_some in Hi. destruct Hok as (Hoff & Hbase).
    apply IH in H.
    + destruct H as (Hok' & Hd & Hp). split; [exact Hok'|]. split.
      * rewrite Hd. unfold advance_bit. destruct (Off r =? 7); reflexivity.
      * rewrite Hp, Nat2Z.inj_succ. unfold advance_bit, bitpos.
        destruct (Off r =? 7) eqn:E; cbn [Base Off].
        -- apply Z.eqb_eq in E. lia.
        -- lia.
    + unfold advance_bit, cursor_ok.
      destruct (Off r =? 7) eqn:E; cbn [Base Off BitReader.Data].
      * lia.
      * apply Z.eqb_neq in E. lia.
Qed.

Lemma to_uint64_wrap64 z : to_uint64 (wrap64 z) = to_uint64 z.
Proof.
  unfold to_uint64, wrap64.
  rewrite Zminus_mod_idemp_l. f_equal. lia.
Qed.

Lemma to_uint64_add_l a b : to_uint64 (to_uint64 a + b) = to_uint64 (a + b).
Proof. unfold to_uint64. apply Zplus_mod_idemp_l. Qed.

Lemma pow2_le_64 n : 0 <= n <= 64 -> 0 < 2 ^ n <= 2 ^ 64.
Proof.
  intros H. split.
  - apply Z.pow_pos_nonneg; lia.
  - apply Z.pow_le_mono_r; lia.
Qed.

(** What [uint64(r.ReadBit64(n))] is: the bits read, as a number. *)
Lemma ReadBit64_unsigned r n :
  0 <= n <= 64 ->
  ('(v, r') <- ReadBit64 r n ;; Ok (to_uint64 v, r')) = read_unsigned r n.
Proof.
  intros Hn. unfold ReadBit64, read_unsigned.
  destruct (read_bits (Z.to_nat n) r 0) as [[v r']|] eqn:E; [|reflexivity].
  apply read_bits_value in E. rewrite Z2Nat.id in E by lia.
  pose proof (pow2_le_64 n Hn).
  cbn [bind of_option]. rewrite to_uint64_wrap64, to_uint64_id by lia.
  reflexivity.
Qed.

Lemma read_unsigned_value r n v r' :
  0 <= n ->
  read_unsigned r n = Ok (v, r') -> 0 <= v < 2 ^ n.
Proof.
  intros Hn. unfold read_unsigned.
  destruct (read_bits (Z.to_nat n) r 0) as [[v0 r0]|] eqn:E;
    [|discriminate].
  intros H. injection H as <- <-.
  apply read_bits_value in E. rewrite Z2Nat.id in E by lia. lia.
Qed.

Lemma read_unsigned_cursor r n v r' :
  0 <= n -> cursor_ok r ->
  read_unsigned r n = Ok (v, r') ->
  cursor_ok r' /\ BitReader.Data r' = BitReader.Data r
  /\ bitpos r' = bitpos r + n.
Proof.
  intros Hn Hok. unfold read_unsigned.
  destruct (read_bits (Z.to_nat n) r 0) as [[v0 r0]|] eqn:E;
    [|discriminate].
  intros H. injection H as <- <-.
  apply read_bits_cursor in E; [|exact Hok].
  rewrite Z2Nat.id in E by lia. exact E.
Qed.

Lemma max_of_width_ok n :
  0 <= n <= 64 -> max_of_width n = Ok (2 ^ n - 1).
Proof.
  intros Hn. unfold max_of_width, shl_uint64.
  destruct (n <? 0) eqn:E; [apply Z.ltb_lt in E; lia|].
  cbn [of_option bind]. rewrite Z.shiftl_1_l.
  destruct (Z.eq_dec n 64) as [->|Hne]; [reflexivity|].
  assert (0 < 2 ^ n <= 2 ^ 63)
    by (split; [apply Z.pow_pos_nonneg | apply Z.pow_le_mono_r]; lia).
  rewrite (to_uint64_id (2 ^ n)) by lia.
  rewrite to_uint64_id by lia. reflexivity.
Qed.

(** The first read of [parseEscapedValue], with its conversion. *)
Lemma parseEscapedValue_unfold r n m k :
  parseEscapedValue r n m k =
  '(val, r) <- ('(v, r') <- ReadBit64 r n ;; Ok (to_uint64 v, r')) ;;
  maxVal <- max_of_width n ;;
  if val =? maxVal then
    '(val2, r) <- ('(v, r') <- ReadBit64 r m ;; Ok (to_uint64 v, r')) ;;
    maxVal2 <- max_of_width m ;;
    if val2 =? maxVal2 then
      '(val3, r) <- ('(v, r') <- ReadBit64 r k ;; Ok (to_uint64 v, r')) ;;
      Ok (to_uint64 (to_uint64 (val + val2) + val3), r)
    else Ok (to_uint64 (val + val2), r)
  else Ok (val, r).
Proof.
  unfold parseEscapedValue.
  destruct (ReadBit64 r n) as [[v r1]| |]; cbn [bind]; try reflexivity.
  destruct (max_of_width n) as [mx| |]; cbn [bind]; try reflexivity.
  destruct (to_uint64 v =? mx); [|reflexivity].
  destruct (ReadBit64 r1 m) as [[v2 r2]| |]; cbn [bind]; try reflexivity.
  destruct (max_of_width m) as [mx2| |]; cbn [bind]; try reflexivity.
  destruct (to_uint64 v2 =? mx2); [|reflexivity].
  destruct (ReadBit64 r2 k) as [[v3 r3]| |]; cbn [bind]; reflexivity.
Qed.

(** The decoder returns the rule's value as a [uint64]. *)
Lemma parseEscapedValue_rule64 r n m k :
  0 <= n <= 64 -> 0 <= m <= 64 -> 0 <= k <= 64 ->
  parseEscapedValue r n m k = as_uint64 (escaped_value_rule r n m k).
Proof.
  intros Hn Hm Hk. rewrite parseEscapedValue_unfold.
  unfold escaped_value_rule, as_uint64.
  rewrite ReadBit64_unsigned by assumption.
  pose proof (pow2_le_64 n Hn). pose proof (pow2_le_64 m Hm).
  pose proof (pow2_le_64 k Hk).
  destruct (read_unsigned r n) as [[v r1]| |] eqn:E1; try reflexivity.
  apply read_unsigned_value in E1; [|lia].
  cbn [bind]. rewrite max_of_width_ok by assumption. cbn [bind].
  destruct (v =? 2 ^ n - 1) eqn:Ev.
  - apply Z.eqb_eq in Ev.
    destruct (v <? 2 ^ n - 1) eqn:El; [apply Z.ltb_lt in El; lia|].
    rewrite ReadBit64_unsigned by assumption.
    destruct (read_unsigned r1 m) as [[v2 r2]| |] eqn:E2; try reflexivity.
    apply read_unsigned_value in E2; [|lia].
    cbn [bind]. rewrite max_of_width_ok by assumption. cbn [bind].
    destruct (v2 =? 2 ^ m - 1); [|reflexivity].
    rewrite ReadBit64_unsigned by assumption.
    destruct (read_unsigned r2 k) as [[v3 r3]| |] eqn:E3; try reflexivity.
    cbn [bind]. rewrite to_uint64_add_l. reflexivity.
  - apply Z.eqb_neq in Ev.
    destruct (v <? 2 ^ n - 1) eqn:El.
    + cbn [bind]. rewrite to_uint64_id by lia. reflexivity.
    + apply Z.ltb_ge in El. lia.
Qed.

Lemma escaped_value_rule_value r n m k v r' :
  0 <= n -> 0 <= m -> 0 <= k ->
  escaped_value_rule r n m k = Ok (v, r') ->
  0 <= v <= 2 ^ n + 2 ^ m + 2 ^ k - 3.
Proof.
  intros Hn Hm Hk. unfold escaped_value_rule.
  assert (0 < 2 ^ m) by (apply Z.pow_pos_nonneg; lia).
  assert (0 < 2 ^ k) by (apply Z.pow_pos_nonneg; lia).
  destruct (read_unsigned r n) as [[v1 r1]| |] eqn:E1; try discriminate.
  apply read_unsigned_value in E1; [|lia]. cbn [bind].
  destruct (v1 <? 2 ^ n - 1) eqn:G1.
  - intros H1. injection H1 as <- <-. apply Z.ltb_lt in G1. lia.
  - destruct (read_unsigned r1 m) as [[v2 r2]| |] eqn:E2; try discriminate.
    apply read_unsigned_value in E2; [|lia]. cbn [bind].
    destruct (v2 =? 2 ^ m - 1) eqn:G2.
    + destruct (read_unsigned r2 k) as [[v3 r3]| |] eqn:E3; try discriminate.
      apply read_unsigned_value in E3; [|lia]. cbn [bind].
      intros H1. injection H1 as <- <-. lia.
    + apply Z.eqb_neq in G2. intros H1. injection H1 as <- <-. lia.
Qed.

(** Where the largest sum fits 64 bits the decoder returns the rule's
    value itself. *)
Lemma parseEscapedValue_rule r n m k :
  0 <= n -> 0 <= m -> 0 <= k ->
  2 ^ n + 2 ^ m + 2 ^ k <= 2 ^ 64 + 2 ->
  parseEscapedValue r n m k = escaped_value_rule r n m k.
Proof.
  intros Hn Hm Hk Hfit.
  assert (B : forall w, 0 <= w -> 2 ^ w <= 2 ^ 64 -> w <= 64).
  { intros w Hw Hle. destruct (Z_le_gt_dec w 64) as [|Hgt]; [assumption|].
    assert (2 ^ 65 <= 2 ^ w) by (apply Z.pow_le_mono_r; lia). lia. }
  assert (0 < 2 ^ n) by (apply Z.pow_pos_nonneg; lia).
  assert (0 < 2 ^ m) by (apply Z.pow_pos_nonneg; lia).
  assert (0 < 2 ^ k) by (apply Z.pow_pos_nonneg; lia).
  rewrite parseEscapedValue_rule64 by (split; try apply B; lia).
  unfold as_uint64.
  destruct (escaped_value_rule r n m k) as [[v r']| |] eqn:E; try reflexivity.
  apply escaped_value_rule_value in E; try lia.
  cbn [bind]. rewrite to_uint64_id by lia. reflexivity.
Qed.

End MhasFacts.

(** ** The MHAS packet loop *)

Module MhasLoopFacts.
Import Mhas MhasRule MhasFacts.

Lemma escaped_value_rule_cursor r n m k v r' :
  0 <= n -> 0 <= m -> 0 <= k ->
  cursor_ok r ->
  escaped_value_rule r n m k = Ok (v, r') ->
  cursor_ok r' /\ BitReader.Data r' = BitReader.Data r
  /\ bitpos r + n <= bitpos r'
  /\ 0 <= v < 2 ^ n + 2 ^ m + 2 ^ k.
Proof.
  intros Hn Hm Hk Hok. unfold escaped_value_rule.
  destruct (read_unsigned r n) as [[v1 r1]| |] eqn:E1; try discriminate.
  pose proof (read_unsigned_value _ _ _ _ Hn E1) as V1.
  destruct (read_unsigned_cursor _ _ _ _ Hn Hok E1) as (Ok1 & D1 & P1).
  assert (0 < 2 ^ m) by (apply Z.pow_pos_nonneg; lia).
  assert (0 < 2 ^ k) by (apply Z.pow_pos_nonneg; lia).
  cbn [bind]. destruct (v1 <? 2 ^ n - 1).
  - intros H1. injection H1 as <- <-. repeat split; try apply Ok1; try lia.
    exact D1.
  - destruct (read_unsigned r1 m) as [[v2 r2]| |] eqn:E2; try discriminate.
    pose proof (read_unsigned_value _ _ _ _ Hm E2) as V2.
    destruct (read_unsigned_cursor _ _ _ _ Hm Ok1 E2) as (Ok2 & D2 & P2).
    cbn [bind]. destruct (v2 =? 2 ^ m - 1).
    + destruct (read_unsigned r2 k) as [[v3 r3]| |] eqn:E3; try discriminate.
      pose proof (read_unsigned_value _ _ _ _ Hk E3) as V3.
      destruct (read_unsigned_cursor _ _ _ _ Hk Ok2 E3) as (Ok3 & D3 & P3).
      cbn [bind]. intros H1. injection H1 as <- <-.
      repeat split; try apply Ok3; try lia. congruence.
    + intros H1. injection H1 as <- <-.
      repeat split; try apply Ok2; try lia. congruence.
Qed.

(** A header is at least 16 bits long, and its fields are small. *)
Lemma read_header_cursor r t l r' :
  cursor_ok r ->
  read_header r = Ok (t, l, r') ->
  cursor_ok r' /\ BitReader.Data r' = BitReader.Data r
  /\ bitpos r + 16 <= bitpos r'
  /\ 0 <= t < 520 /\ 0 <= l < 2 ^ 26.
Proof.
  intros Hok. unfold read_header.
  rewrite !parseEscapedValue_rule by (cbn; lia).
  destruct (escaped_value_rule r 3 8 8) as [[t1 r1]| |] eqn:E1;
    try discriminate.
  apply escaped_value_rule_cursor in E1; try lia; [|exact Hok].
  destruct E1 as (Ok1 & D1 & P1 & V1). cbn [bind].
  rewrite !parseEscapedValue_rule by (cbn; lia).
  destruct (escaped_value_rule r1 2 8 32) as [[t2 r2]| |] eqn:E2;
    try discriminate.
  apply escaped_value_rule_cursor in E2; try lia; [|exact Ok1].
  destruct E2 as (Ok2 & D2 & P2 & V2). cbn [bind].
  rewrite !parseEscapedValue_rule by (cbn; lia).
  destruct (escaped_value_rule r2 11 24 24) as [[t3 r3]| |] eqn:E3;
    try discriminate.
  apply escaped_value_rule_cursor in E3; try lia; [|exact Ok2].
  destruct E3 as (Ok3 & D3 & P3 & V3). cbn [bind].
  intros H. injection H as <- <- <-.
  repeat split; try apply Ok3; try lia. congruence.
Qed.

Lemma to_uint64_le x : 0 <= x -> 0 <= to_uint64 x <= x.
Proof.
  intros H. unfold to_uint64. split.
  - apply Z.mod_pos_bound. lia.
  - apply Z.mod_le; lia.
Qed.

Lemma mhas_iter_resync data s s' :
  scan_ok data s ->
  mhas_iter data s = Resync s' ->
  scan_ok data s'
  /\ Base (rd s') = Base (rd s) + 1 /\ Off (rd s') = Off (rd s)
  /\ packetTypes s' = packetTypes s /\ isRap s' = isRap s.
Proof.
  intros (Hd & Hok). unfold mhas_iter. cbv zeta.
  destruct (Base (rd s) <? len data) eqn:G1; [|discriminate].
  destruct (Base (rd s) + 2 >? len data) eqn:G2; [discriminate|].
  destruct (read_header (rd s)) as [[[t l] r]| |] eqn:E; try discriminate.
  destruct (read_header_cursor _ _ _ _ Hok E) as (Ok' & D' & _).
  destruct (l >? to_uint64 (len data - Base r)); [|discriminate].
  intros H. injection H as <-. cbn [rd packetTypes isRap Base Off].
  assert (G2' : Base (rd s) + 2 <= len data) by lia.
  destruct Hok as (Hoff & Hbase).
  repeat split; try reflexivity; cbn [rd BitReader.Data Base Off];
    try congruence; try lia.
  rewrite D', Hd. lia.
Qed.

Lemma mhas_iter_accept data s s' :
  scan_ok data s ->
  mhas_iter data s = Accept s' ->
  scan_ok data s'
  /\ Base (rd s) + 2 <= Base (rd s')
  /\ exists t l r,
       read_header (rd s) = Ok (t, l, r)
       /\ Base (rd s) + 2 <= Base r
       /\ 0 <= l <= len data - Base r
       /\ Base (rd s') = Base r + l
       /\ packetTypes s' = packetTypes s ++ [GetMpeghAudioPacketType t]
       /\ isRap s' = (if (t =? 1) || (t =? 6) then true else isRap s).
Proof.
  intros (Hd & Hok). unfold mhas_iter. cbv zeta.
  destruct (Base (rd s) <? len data) eqn:G1; [|discriminate].
  destruct (Base (rd s) + 2 >? len data) eqn:G2; [discriminate|].
  destruct (read_header (rd s)) as [[[t l] r]| |] eqn:E; try discriminate.
  destruct (read_header_cursor _ _ _ _ Hok E) as (Ok' & D' & P' & Vt & Vl).
  destruct Ok' as (Hoff' & Hbase'). rewrite D', Hd in Hbase'.
  destruct (to_uint64_le (len data - Base r)) as (_ & Hle); [lia|].
  destruct (l >? to_uint64 (len data - Base r)) eqn:G3; [discriminate|].
  assert (Hl : l <= len data - Base r) by lia.
  assert (2 ^ 26 < 2 ^ 63) by (apply Z.pow_lt_mono_r; lia).
  rewrite !wrap64_id by (unfold in_int64; lia).
  intros Hacc. injection Hacc as <-. unfold SkipByte.
  cbn [rd packetTypes isRap Base Off BitReader.Data].
  destruct Hok as (Hoff & Hbase). unfold bitpos in P'.
  split; [|split].
  - unfold scan_ok, cursor_ok. cbn [rd BitReader.Data Base Off].
    rewrite D', Hd. split; [reflexivity|lia].
  - lia.
  - exists t, l, r. repeat split; try reflexivity; lia.
Qed.

(** Every pass that continues moves the byte cursor forward. *)
Lemma mhas_iter_progress data s :
  scan_ok data s ->
  match mhas_iter data s with
  | Resync s' | Accept s' => scan_ok data s' /\ Base (rd s) < Base (rd s')
  | _ => True
  end.
Proof.
  intros Hok. destruct (mhas_iter data s) as [|s'|s'|] eqn:E; try exact I.
  - destruct (mhas_iter_resync _ _ _ Hok E) as (H & Hb & _). split; [exact H|lia].
  - destruct (mhas_iter_accept _ _ _ Hok E) as (H & Hb & _). split; [exact H|lia].
Qed.

Lemma mhas_iter_exit_at_end data s :
  len data < Base (rd s) + 2 -> mhas_iter data s = Exit.
Proof.
  intros H. unfold mhas_iter. cbv zeta.
  destruct (Base (rd s) <? len data); [|reflexivity].
  destruct (Base (rd s) + 2 >? len data) eqn:G; [reflexivity|]. lia.
Qed.

(** With one unit of fuel per remaining byte and one more, the loop ends
    through its guard or a panic, never through the fuel. *)
Lemma mhas_loop_total data : forall fuel s,
  scan_ok data s ->
  len data - Base (rd s) < Z.of_nat fuel ->
  mhas_loop fuel data s <> Fuel.
Proof.
  induction fuel as [|fuel IH]; intros s Hok Hfuel.
  - exfalso. destruct Hok as (Hd & _ & Hb). rewrite Hd in Hb.
    change (Z.of_nat 0) with 0 in Hfuel. lia.
  - cbn [mhas_loop]. pose proof (mhas_iter_progress data s Hok) as Hp.
    destruct (mhas_iter data s) as [|s'|s'|]; try discriminate;
      destruct Hp as (Hok' & Hlt); apply IH; try exact Hok'; lia.
Qed.

Lemma initial_scan_ok data : scan_ok data (mkScan (mkReader data 0 0) [] false).
Proof.
  unfold scan_ok, cursor_ok. cbn. pose proof (len_nonneg data). repeat split; lia.
Qed.

Lemma mhas_scan_total data : mhas_scan data <> Fuel.
Proof.
  unfold mhas_scan. apply mhas_loop_total; [apply initial_scan_ok|].
  cbn [rd Base]. unfold len. lia.
Qed.

End MhasLoopFacts.

(** ** The scan up to the last marker *)

Module ScanDesignFacts.
Import H266 H266Facts ScanFacts.

Section Scan.

Variable data : list byte.
Hypothesis two_after : forall q, In q (markers data) -> q + 5 <= len data.
Hypothesis apart : forall q, In q (markers data) -> ~ In (q + 3) (markers data).

Lemma no_marker_after_end (p n : nat) :
  len data < Z.of_nat p + 5 -> markers_from data p n = [].
Proof.
  intros Hend.
  destruct (markers_from data p n) as [|q l] eqn:E; [reflexivity|].
  assert (Hin : In q (markers_from data p n)) by (rewrite E; left; reflexivity).
  apply markers_from_in in Hin. destruct Hin as (k & -> & Hk & Hm).
  assert (Hq : In (Z.of_nat k) (markers data)) by (apply markers_in; eauto).
  specialize (two_after _ Hq). lia.
Qed.

(** Where the loop guard fails, at most the marker at [len(data) - 5] is
    left. *)
Lemma last_marker_only (p : nat) :
  len data <= Z.of_nat p + 5 ->
  markers_from data p (List.length data - p) = []
  \/ (In (len data - 5) (markers data)
      /\ markers_from data p (List.length data - p) = [len data - 5]).
Proof.
  intros Hend.
  destruct (List.length data - p)%nat as [|n] eqn:En; [left; reflexivity|].
  rewrite markers_from_S, (no_marker_after_end (S p) n) by lia.
  destruct (marker_at data (Z.of_nat p)) eqn:Hm; [|left; reflexivity].
  assert (Hq : In (Z.of_nat p) (markers data)) by (apply markers_in; eauto).
  pose proof (two_after _ Hq) as Hr.
  replace (len data - 5) with (Z.of_nat p) by lia.
  right. split; [exact Hq|reflexivity].
Qed.

Lemma vvc_scan_but_last : forall fuel (p : nat) nals,
  (List.length data <= p + fuel)%nat ->
  exists tl,
    nals ++ map (classify_at data)
                (markers_from data p (List.length data - p))
    = vvc_scan fuel data (Z.of_nat p) nals ++ tl
    /\ (tl = []
        \/ (In (len data - 5) (markers data)
            /\ tl = [classify_at data (len data - 5)])).
Proof.
  induction fuel as [|fuel IH]; intros p nals Hfuel.
  - cbn [vvc_scan]. replace (List.length data - p)%nat with 0%nat by lia.
    exists []. split; [reflexivity|]. left. reflexivity.
  - cbn [vvc_scan]. destruct (Z.of_nat p + 5 <? len data) eqn:Hguard.
    + apply Z.ltb_lt in Hguard.
      change (bytes_eqb startcode
                (slice data (Z.of_nat p) (Z.of_nat p + startlen)))
        with (marker_at data (Z.of_nat p)).
      assert (Hlen : (List.length data - p = S (List.length data - S p))%nat)
        by (unfold len in Hguard; lia).
      rewrite Hlen, markers_from_S.
      destruct (marker_at data (Z.of_nat p)) eqn:Hm.
      * replace (Z.of_nat p + startlen + 1) with (Z.of_nat (p + 4))
          by (change startlen with 3; lia).
        assert (Hin : (Z.of_nat (p + 4) <? len data) = true)
          by (apply Z.ltb_lt; lia).
        rewrite Hin, (skip_after_marker data apart p Hguard Hm).
        destruct (IH (p + 4)%nat
                     (nals ++ [GetVvcNalUnitType
                                 (byte_Z (at_ data (Z.of_nat (p + 4))))]))
          as (tl & E & Htl); [lia|].
        exists tl. split; [|exact Htl].
        rewrite <- E, <- app_assoc. cbn [map app]. unfold classify_at at 1.
        replace (Z.of_nat p + 4) with (Z.of_nat (p + 4)) by lia.
        reflexivity.
      * replace (Z.of_nat p + 1) with (Z.of_nat (S p)) by lia.
        cbn [app]. apply IH. lia.
    + apply Z.ltb_ge in Hguard.
      destruct (last_marker_only p Hguard) as [E|(Hin & E)]; rewrite E.
      * exists []. split; [reflexivity|]. left. reflexivity.
      * exists [classify_at data (len data - 5)].
        split; [reflexivity|]. right. split; [exact Hin|reflexivity].
Qed.

End Scan.
End ScanDesignFacts.

(** * The specification's claims *)

Module NalClaims.
Import H266 H266Facts ScanFacts Samples.

(** C9.  For every input [b], [GetVvcNalUnitType] returns one of the 32
    named table entries: the index [(b >> 3) & 0x1F] lies in 0..31, the
    table has exactly 32 entries, the guard before the ["unknown"] fallback
    always holds, and every name [ParseVvcNalUnits] emits is a table
    entry. *)
Theorem GetVvcNalUnitType_always_named :
  forall b : Z,
    0 <= nal_index b < 32
    /\ len VvcNalUnitType = 32
    /\ (nal_index b <? len VvcNalUnitType) = true
    /\ GetVvcNalUnitType b
       = nth (Z.to_nat (nal_index b)) VvcNalUnitType "unknown"%string
    /\ In (GetVvcNalUnitType b) VvcNalUnitType
    /\ GetVvcNalUnitType b <> "unknown"%string
    /\ forall data, Forall (fun n => In n VvcNalUnitType) (ParseVvcNalUnits data).
Proof.
  intros b. pose proof (nal_index_range b) as Hr.
  repeat split; try lia.
  - apply Z.ltb_lt. rewrite table_len. lia.
  - apply GetVvcNalUnitType_nth.
  - apply GetVvcNalUnitType_in.
  - pose proof (GetVvcNalUnitType_in b) as Hin. intros E. rewrite E in Hin.
    cbv [VvcNalUnitType In] in Hin.
    repeat (destruct Hin as [Hin|Hin]; [discriminate Hin|]). exact Hin.
  - intros data. apply vvc_scan_in. constructor.
Qed.

(** C2, as stated, fails: of two markers three bytes apart, each with two
    or more bytes after it, only the first is classified, because the scan
    resumes four bytes after the start of a matched marker. *)
Lemma ParseVvcNalUnits_misses_markers :
  markers nal_adjacent = [0; 3]
  /\ (forall q, In q (markers nal_adjacent) -> q + 5 <= len nal_adjacent)
  /\ map (classify_at nal_adjacent) (markers nal_adjacent)
     = ["trail_nvc"; "cra_nut"]%string
  /\ ParseVvcNalUnits nal_adjacent = ["trail_nvc"%string].
Proof.
  repeat split; try reflexivity.
  intros q [<-|[<-|[]]]; vm_compute; discriminate.
Qed.

(** C2, amended.  For every byte sequence in which each occurrence of the
    marker [00 00 01] is followed by at least two bytes and no occurrence
    starts three bytes after another, [ParseVvcNalUnits] returns the
    classifications of the occurrences in encounter order, one per
    occurrence, each the table entry of index [(b >> 3) & 0x1F] for the
    second byte [b] after the marker (0x48 has index 9, [cra_nut]).  The
    one occurrence left open is a marker followed by exactly two bytes at
    the very end: whether it is classified is not part of this statement,
    which holds with or without its name at the end of the result; where
    there is no such marker the result has exactly one name per
    occurrence. *)
Theorem ParseVvcNalUnits_one_per_marker :
  forall data : list byte,
    (forall q, In q (markers data) -> q + 5 <= len data) ->
    (forall q, In q (markers data) -> ~ In (q + 3) (markers data)) ->
    (exists tl,
        map (classify_at data) (markers data) = ParseVvcNalUnits data ++ tl
        /\ (tl = []
            \/ (In (len data - 5) (markers data)
                /\ tl = [classify_at data (len data - 5)])))
    /\ (~ In (len data - 5) (markers data) ->
        ParseVvcNalUnits data = map (classify_at data) (markers data)
        /\ List.length (ParseVvcNalUnits data) = List.length (markers data))
    /\ (forall q, classify_at data q
                  = nth (Z.to_nat (nal_index (byte_Z (at_ data (q + 4)))))
                        VvcNalUnitType "unknown"%string)
    /\ nal_index 0x48 = 9
    /\ GetVvcNalUnitType 0x48 = "cra_nut"%string.
Proof.
  intros data Htwo Hapart.
  destruct (ScanDesignFacts.vvc_scan_but_last data Htwo Hapart
              (List.length data) 0%nat []) as (tl & E & Htl); [lia|].
  rewrite Nat.sub_0_r in E.
  change (map (classify_at data) (markers data)
          = ParseVvcNalUnits data ++ tl) in E.
  split; [exists tl; split; assumption|].
  split; [|repeat split; try reflexivity;
           intros q; unfold classify_at; apply GetVvcNalUnitType_nth].
  intros Hno. destruct Htl as [->|(Hin & _)]; [|contradiction].
  rewrite app_nil_r in E. split; [now symmetry|].
  rewrite <- E. apply length_map.
Qed.

Lemma ParseVvcNalUnits_one_per_marker_witness :
  (ParseVvcNalUnits nal_two = ["cra_nut"%string; "idr_n_lp"%string]
   /\ markers nal_two = [0; 6])
  /\ exists tl,
       map (classify_at nal_tail) (markers nal_tail)
       = ParseVvcNalUnits nal_tail ++ tl.
Proof.
  split.
  - split; [|reflexivity].
    destruct (ParseVvcNalUnits_one_per_marker nal_two) as (_ & H & _).
    + intros q [<-|[<-|[]]]; vm_compute; discriminate.
    + intros q [<-|[<-|[]]]; vm_compute; intros [H|[H|[]]]; discriminate H.
    + destruct H as (E & _).
      * vm_compute. intros [H|[H|[]]]; discriminate H.
      * rewrite E. reflexivity.
  - destruct (ParseVvcNalUnits_one_per_marker nal_tail) as ((tl & E & _) & _).
    + intros q [<-|[<-|[]]]; vm_compute; discriminate.
    + intros q [<-|[<-|[]]]; vm_compute; intros [H|[H|[]]]; discriminate H.
    + exists tl. exact E.
Defined.

End NalClaims.

Module MhasClaims.
Import Mhas MhasRule MhasFacts MhasLoopFacts MpeghRec Samples.

(** C4.  For every bit stream and widths [n], [m], [k] (of at most 64
    bits, what one read delivers), [parseEscapedValue] follows the
    escaped-value rule: it reads [n] bits as [v] and returns [v] when
    [v < 2^n - 1]; when [v = 2^n - 1] it reads [m] more bits as [v2] and
    returns [v + v2], unless [v2 = 2^m - 1], in which case it reads [k]
    further bits as [v3] and returns [v + v2 + v3].  The sums are [uint64]
    sums; they are the exact sums whenever the largest one fits 64 bits,
    as for all widths the parser uses.  With widths (3, 8, 8) the encoding
    of 5 decodes to 5 and leaves the cursor after 3 bits, and the encoding
    of 10 (first field 7, extension field 3) decodes to 10. *)
Theorem parseEscapedValue_follows_rule :
  forall (r : Reader) (n m k : Z),
    0 <= n <= 64 -> 0 <= m <= 64 -> 0 <= k <= 64 ->
    parseEscapedValue r n m k = as_uint64 (escaped_value_rule r n m k)
    /\ (2 ^ n + 2 ^ m + 2 ^ k <= 2 ^ 64 + 2 ->
        parseEscapedValue r n m k = escaped_value_rule r n m k)
    /\ parseEscapedValue (mkReader esc_five 0 0) 3 8 8
       = Ok (5, mkReader esc_five 0 3)
    /\ parseEscapedValue (mkReader esc_ten 0 0) 3 8 8
       = Ok (7 + 3, mkReader esc_ten 1 3).
Proof.
  intros r n m k Hn Hm Hk. split; [|split; [|split]].
  - now apply parseEscapedValue_rule64.
  - intros Hfit. apply parseEscapedValue_rule; lia.
  - reflexivity.
  - reflexivity.
Qed.

Lemma parseEscapedValue_follows_rule_witness :
  parseEscapedValue (mkReader esc_ten 0 0) 3 8 8
  = escaped_value_rule (mkReader esc_ten 0 0) 3 8 8.
Proof.
  destruct (parseEscapedValue_follows_rule (mkReader esc_ten 0 0) 3 8 8)
    as (_ & H & _); try lia.
  apply H. vm_compute. discriminate.
Defined.

(** C5.  Whenever the decoded [packetLength] exceeds the bytes left after
    the header, the pass ends in the resynchronisation branch: the cursor
    is set to one byte past the packet's start offset (bit offset as at the
    start), nothing is classified, and the loop goes on from there.  The
    payload [27 20 01 aa], whose first packet declares 0x720 bytes, still
    yields the classification of the packet that starts one byte later. *)
Theorem parseMhasPackets_resyncs :
  forall (data : list byte) (s : scan) (t l : Z) (r' : Reader),
    scan_ok data s ->
    Base (rd s) + 2 <= len data ->
    read_header (rd s) = Ok (t, l, r') ->
    len data - Base r' < l ->
    let s' := mkScan (mkReader data (Base (rd s) + 1) (Off (rd s)))
                     (packetTypes s) (isRap s) in
    mhas_iter data s = Resync s'
    /\ (forall fuel, mhas_loop (S fuel) data s = mhas_loop fuel data s')
    /\ mhas_scan mhas_resync
       = Ok (mkScan (mkReader mhas_resync 4 0)
                    ["PACTYP_MPEGH3DACFG"%string] true).
Proof.
  intros data s t l r' Hok Hroom Hh Hbig s'.
  assert (E : mhas_iter data s = Resync s').
  { destruct Hok as (Hd & Hc).
    destruct (read_header_cursor _ _ _ _ Hc Hh) as ((_ & Hb) & D' & _).
    rewrite D', Hd in Hb.
    destruct (to_uint64_le (len data - Base r')) as (_ & Hle); [lia|].
    unfold mhas_iter. cbv zeta. rewrite Hh.
    destruct (Base (rd s) <? len data) eqn:G1; [|apply Z.ltb_ge in G1; lia].
    destruct (Base (rd s) + 2 >? len data) eqn:G2; [lia|].
    destruct (l >? to_uint64 (len data - Base r')) eqn:G3; [|lia].
    unfold s'. rewrite D', Hd. reflexivity. }
  split; [exact E|]. split; [|reflexivity].
  intros fuel. cbn [mhas_loop]. rewrite E. reflexivity.
Qed.

Lemma parseMhasPackets_resyncs_witness :
  mhas_iter mhas_resync (mkScan (mkReader mhas_resync 0 0) [] false)
  = Resync (mkScan (mkReader mhas_resync 1 0) [] false).
Proof.
  refine (proj1 (parseMhasPackets_resyncs mhas_resync
                   (mkScan (mkReader mhas_resync 0 0) [] false)
                   1 1824 (mkReader mhas_resync 2 0) _ _ _ _)).
  - split; [reflexivity|]. unfold cursor_ok. cbn. lia.
  - vm_compute. discriminate.
  - reflexivity.
  - vm_compute. reflexivity.
Defined.

(** C10.  [parseMhasPackets] terminates on every payload: its loop ends
    through its guard or through a panic, never by running on.  On every
    pass that continues the byte cursor strictly increases: a validated
    packet moves it past a header of at least two bytes and then past
    [packetLength] bytes, and the resynchronisation branch sets it to one
    byte past the packet's start. *)
Theorem parseMhasPackets_terminates :
  forall (data : list byte) (s : scan),
    scan_ok data s ->
    (mhas_scan data = Panic \/ exists sc, mhas_scan data = Ok sc)
    /\ (forall PrivLog (rec : MpeghAudioRecord PrivLog) pos pts,
          parseMhasPackets rec data pos pts <> Fuel)
    /\ (forall fuel, len data - Base (rd s) < Z.of_nat fuel ->
                     mhas_loop fuel data s <> Fuel)
    /\ match mhas_iter data s with
       | Resync s' => scan_ok data s' /\ Base (rd s') = Base (rd s) + 1
       | Accept s' =>
         scan_ok data s'
         /\ exists t l r,
              read_header (rd s) = Ok (t, l, r)
              /\ Base (rd s) + 2 <= Base r /\ 0 <= l
              /\ Base (rd s') = Base r + l
       | Exit | Crash => True
       end.
Proof.
  intros data s Hok.
  pose proof (mhas_scan_total data) as Htot.
  split; [|split; [|split]].
  - destruct (mhas_scan data) as [sc| |]; [right; eauto | left; reflexivity
                                           | congruence].
  - intros PrivLog rec pos pts. unfold parseMhasPackets.
    destruct (mhas_scan data); cbn [bind]; congruence.
  - intros fuel Hfuel. now apply mhas_loop_total.
  - destruct (mhas_iter data s) as [|s'|s'|] eqn:E; try exact I.
    + destruct (mhas_iter_resync _ _ _ Hok E) as (H & Hb & _). auto.
    + destruct (mhas_iter_accept _ _ _ Hok E)
        as (H & _ & t & l & r & Hh & Hr & Hl & Hb & _).
      split; [exact H|]. exists t, l, r. repeat split; try assumption; lia.
Qed.

Lemma parseMhasPackets_terminates_witness :
  exists sc, mhas_scan mhas_resync = Ok sc.
Proof.
  destruct (parseMhasPackets_terminates mhas_resync
              (mkScan (mkReader mhas_resync 0 0) [] false))
    as ([H|H] & _).
  - split; [reflexivity|]. unfold cursor_ok. cbn. lia.
  - vm_compute in H. discriminate H.
  - exact H.
Defined.

End MhasClaims.

Module HistoryClaims.
Import Mhas MhasRule MhasFacts MhasLoopFacts MpeghRec Samples.

Lemma app_one_neq {A} (l : list A) (x : A) : l ++ [x] <> l.
Proof.
  intros E. apply (f_equal (@List.length A)) in E.
  rewrite length_app in E. simpl in E. lia.
Qed.

Lemma len_pos_iff {A} (l : list A) : (len l >? 0) = true <-> l <> [].
Proof.
  destruct l as [|a l]; unfold len; simpl; split; intros H;
    try congruence; try reflexivity.
  discriminate.
Qed.

(** C8.  When [parseMhasPackets] returns for a payload, the record of the
    payload is appended to the history if and only if the scan classified
    at least one packet, and otherwise the history is unchanged; [Report]
    writes [<PID>-mhas.csv] exactly when the history is non-empty. *)
Theorem MhasPackets_appended_iff_classified :
  forall PrivLog (s s' : MpeghAudioRecord PrivLog) (data : list byte)
         (pos pts : Z) (rap : bool) (root : string),
    parseMhasPackets s data pos pts = Ok (s', rap) ->
    exists sc,
      mhas_scan data = Ok sc
      /\ rap = isRap sc
      /\ (packetTypes sc <> [] <->
          MhasPackets s'
          = MhasPackets s ++ [mkMhasInfo pos pts (packetTypes sc)])
      /\ (packetTypes sc = [] <-> MhasPackets s' = MhasPackets s)
      /\ (MhasPackets s' <> [] ->
          Report s' root
          = [timing_file root (Pid (base s')) (Pkts s'); mhas_file s' root])
      /\ (MhasPackets s' = [] ->
          Report s' root = [timing_file root (Pid (base s')) (Pkts s')]).
Proof.
  intros PrivLog s s' data pos pts rap root. unfold parseMhasPackets.
  destruct (mhas_scan data) as [sc| |]; cbn [bind]; try discriminate.
  intros H. injection H as <- <-. exists sc.
  split; [reflexivity|]. split; [reflexivity|].
  destruct (len (packetTypes sc) >? 0) eqn:E.
  - assert (Hne : packetTypes sc <> []) by (now apply len_pos_iff).
    split; [|split; [|split]].
    + split; intros _; [reflexivity | exact Hne].
    + split; [contradiction|]. cbn [MhasPackets set_MhasPackets].
      intros E'. exfalso. exact (app_one_neq _ _ E').
    + intros Hne'. unfold Report.
      apply len_pos_iff in Hne'. rewrite Hne'. reflexivity.
    + cbn [MhasPackets set_MhasPackets]. intros E'.
      destruct (MhasPackets s); discriminate E'.
  - assert (Hnil : packetTypes sc = []).
    { destruct (packetTypes sc); [reflexivity|]. discriminate E. }
    split; [|split; [|split]].
    + split; [congruence|]. intros E'. exfalso.
      symmetry in E'. exact (app_one_neq _ _ E').
    + split; intros _; [reflexivity | exact Hnil].
    + intros Hne. unfold Report.
      apply len_pos_iff in Hne. rewrite Hne. reflexivity.
    + intros E'. unfold Report. rewrite E'. reflexivity.
Qed.

Lemma MhasPackets_appended_iff_classified_witness :
  exists sc,
    mhas_scan mhas_resync = Ok sc
    /\ packetTypes sc = ["PACTYP_MPEGH3DACFG"%string].
Proof.
  pose (s0 := MpeghRec.mkRec base0 None [] [] [] None false []).
  destruct (MhasPackets_appended_iff_classified unit s0
              (MpeghRec.mkRec base0 None []
                 [mkMhasInfo 0 1000 ["PACTYP_MPEGH3DACFG"%string]]
                 [] None false [])
              mhas_resync 0 1000 true ""%string eq_refl)
    as (sc & Hsc & _).
  exists sc. split; [exact Hsc|].
  vm_compute in Hsc. injection Hsc as <-. reflexivity.
Defined.

End HistoryClaims.

Module ReportClaims.
Import Samples.

(** C7.  Every row of the timing report is the packet's columns joined by
    [", "]: [Pos], [Size], the PCR, [Pts], the DTS and the drift.  The PCR
    column is the stored [Pcr] divided by 300 (integer division,
    truncating), the DTS column is [Pts] when the stored [Dts] is 0 and
    [Dts] otherwise, and the drift column is that DTS minus that PCR (an
    [int64] subtraction, the exact difference whenever that is an
    [int64]).  Both records write the header and then one such row per
    packet of their history, in order, to [<PID>.csv]. *)
Theorem report_row_timing :
  forall p : PesPkt,
    row_pcr p = Z.quot (Pcr p) 300
    /\ row_dts p = (if Dts p =? 0 then Pts p else Dts p)
    /\ (Dts p = 0 -> row_dts p = Pts p)
    /\ pes_row p
       = String.concat ", "
           [ FormatInt (Pos p); FormatInt (Size p);
             FormatInt (Z.quot (Pcr p) 300); FormatInt (Pts p);
             FormatInt (if Dts p =? 0 then Pts p else Dts p);
             FormatInt (sub64 (if Dts p =? 0 then Pts p else Dts p)
                              (Z.quot (Pcr p) 300)) ]
    /\ (in_int64 (row_dts p - row_pcr p) ->
        pes_row p
        = String.concat ", "
            [ FormatInt (Pos p); FormatInt (Size p);
              FormatInt (row_pcr p); FormatInt (Pts p);
              FormatInt (row_dts p);
              FormatInt (row_dts p - row_pcr p) ])
    /\ nth 2 (row_cols p) ""%string = FormatInt (row_pcr p)
    /\ nth 4 (row_cols p) ""%string = FormatInt (row_dts p)
    /\ nth 5 (row_cols p) ""%string
       = FormatInt (sub64 (row_dts p) (row_pcr p))
    /\ (forall PrivLog (s : H266Rec.H266Record PrivLog) root,
          exists others,
            H266Rec.Report s root
            = (path root (FormatInt (Pid (H266Rec.base s)) ++ ".csv"),
               "Pos, Size, PCR, PTS, DTS, (DTS-PCR)"%string
               :: map pes_row (H266Rec.Pkts s)) :: others)
    /\ (forall PrivLog (s : MpeghRec.MpeghAudioRecord PrivLog) root,
          exists others,
            MpeghRec.Report s root
            = (path root (FormatInt (Pid (MpeghRec.base s)) ++ ".csv"),
               "Pos, Size, PCR, PTS, DTS, (DTS-PCR)"%string
               :: map pes_row (MpeghRec.Pkts s)) :: others).
Proof.
  intros p. repeat split.
  - intros E. unfold row_dts. rewrite E. reflexivity.
  - intros Hrange. unfold pes_row, Join, row_cols. cbv zeta.
    unfold sub64. now rewrite wrap64_id.
  - intros PrivLog s root. eexists. reflexivity.
  - intros PrivLog s root. eexists. reflexivity.
Qed.

Lemma report_row_timing_witness :
  pes_row timed_pkt = "188, 14, 1000, 1000, 1000, 0"%string
  /\ pes_row timed_pkt
     = String.concat ", "
         [ FormatInt (Pos timed_pkt); FormatInt (Size timed_pkt);
           FormatInt (row_pcr timed_pkt); FormatInt (Pts timed_pkt);
           FormatInt (row_dts timed_pkt);
           FormatInt (row_dts timed_pkt - row_pcr timed_pkt) ].
Proof.
  split; [reflexivity|].
  destruct (report_row_timing timed_pkt) as (_ & _ & _ & _ & H & _).
  apply H. vm_compute. split; [discriminate | reflexivity].
Defined.

End ReportClaims.

(** ** The record engines *)

Module EngineShared.

Lemma not_pusi (pkt : TsPkt) : ts_PUSI pkt <> 1 -> (ts_PUSI pkt =? 1) = false.
Proof. intros H. now apply Z.eqb_neq. Qed.

Lemma slice_from_ok (buf : list byte) (lo : Z) :
  0 <= lo <= len buf -> slice_from buf lo = Some (skipn (Z.to_nat lo) buf).
Proof.
  intros H. unfold slice_from.
  destruct (lo <? 0) eqn:E1; [apply Z.ltb_lt in E1; lia|].
  destruct (len buf <? lo) eqn:E2; [apply Z.ltb_lt in E2; lia|].
  reflexivity.
Qed.

End EngineShared.

Module H266EngineFacts.
Import H266 H266Rec EngineShared.

Section Facts.

Variable PrivLog : Type.
Variable priv_hook : TsPkt -> PrivLog -> PrivLog.
Variable pes_header : list byte -> Z * Z * Z.

(** One event per random-access name in the list, not one per payload. *)
Lemma log_rap_nals_count (cur : PesPkt) (nals : list string) :
  forall b : BaseRecord PrivLog,
    IFrames (log_rap_nals b cur nals)
    = IFrames b ++ repeat (mkIFrameInfo (Pos cur) (Pts cur) true)
                          (List.length (filter is_rap_nal nals)).
Proof.
  unfold log_rap_nals.
  induction nals as [|nal nals IH]; intros b; cbn [fold_left filter].
  - cbn. now rewrite app_nil_r.
  - rewrite IH. destruct (is_rap_nal nal); cbn [List.length repeat IFrames LogIFrame].
    + rewrite <- app_assoc. reflexivity.
    + reflexivity.
Qed.

Lemma Flush_keeps_events (s : H266Record PrivLog) :
  IFrames (base (Flush s)) = IFrames (base s).
Proof. unfold Flush. destruct (curpkt s); reflexivity. Qed.

Lemma Flush_history (s : H266Record PrivLog) :
  Pkts (Flush s) = Pkts (finalize_on_pusi s)
  /\ NalInfos (Flush s) = NalInfos (finalize_on_pusi s).
Proof. unfold Flush, finalize_on_pusi. destruct (curpkt s); split; reflexivity. Qed.

(** Leaving workaround mode: the flag falls, the buffer stays as it is. *)
Lemma h266_workaround_completes (s : H266Record PrivLog) (pkt : TsPkt)
    (cur : PesPkt) (hlen pts dts : Z) :
  ts_PUSI pkt <> 1 ->
  WorkaroundPESFlag s = true ->
  curpkt s = Some cur ->
  minVvcPesHeaderLen <= len (WorkaroundPES s ++ ts_Data pkt) ->
  slice (WorkaroundPES s ++ ts_Data pkt) 0 3 = startcode ->
  pes_header (WorkaroundPES s ++ ts_Data pkt) = (hlen, pts, dts) ->
  0 <= hlen <= len (WorkaroundPES s ++ ts_Data pkt) ->
  exists s',
    Process PrivLog priv_hook pes_header s pkt = Ok s'
    /\ WorkaroundPESFlag s' = false
    /\ WorkaroundPES s' = WorkaroundPES s ++ ts_Data pkt
    /\ curpkt s'
       = Some (accumulate
                 (mkPesPkt (Pos cur) pts dts (Pcr cur) (Size cur) (Data cur))
                 (skipn (Z.to_nat hlen) (WorkaroundPES s ++ ts_Data pkt)))
    /\ Pkts s' = Pkts s /\ NalInfos s' = NalInfos s.
Proof.
  intros Hp Hflag Hcur Hlen Hsc Hh Hhl.
  unfold Process. rewrite (not_pusi pkt Hp). cbn [bind].
  unfold on_workaround.
  cbn [set_base WorkaroundPESFlag WorkaroundPES curpkt set_workaround].
  rewrite Hflag.
  destruct (len (WorkaroundPES s ++ ts_Data pkt) >=? minVvcPesHeaderLen) eqn:G;
    [|lia].
  rewrite Hsc.
  assert (Eb : bytes_eqb startcode startcode = true) by reflexivity.
  rewrite Eb, Hcur. unfold Read. rewrite Hh.
  rewrite (slice_from_ok _ _ Hhl). cbn [of_option bind].
  eexists. split; [reflexivity|].
  unfold on_accumulate. cbn. repeat split; reflexivity.
Qed.

(** Below the threshold the buffer only grows. *)
Lemma h266_workaround_waits (s : H266Record PrivLog) (pkt : TsPkt) (cur : PesPkt) :
  ts_PUSI pkt <> 1 ->
  WorkaroundPESFlag s = true ->
  curpkt s = Some cur ->
  len (WorkaroundPES s ++ ts_Data pkt) < minVvcPesHeaderLen ->
  exists s',
    Process PrivLog priv_hook pes_header s pkt = Ok s'
    /\ WorkaroundPESFlag s' = true
    /\ WorkaroundPES s' = WorkaroundPES s ++ ts_Data pkt
    /\ curpkt s' = Some (accumulate cur []).
Proof.
  intros Hp Hflag Hcur Hlen.
  unfold Process. rewrite (not_pusi pkt Hp). cbn [bind].
  unfold on_workaround.
  cbn [set_base WorkaroundPESFlag WorkaroundPES curpkt set_workaround].
  rewrite Hflag.
  destruct (len (WorkaroundPES s ++ ts_Data pkt) >=? minVvcPesHeaderLen) eqn:G;
    [lia|].
  cbn [bind]. eexists. split; [reflexivity|].
  unfold on_accumulate. cbn. rewrite Hcur. cbn. repeat split; reflexivity.
Qed.

(** Outside workaround mode every packet's payload is accumulated. *)
Lemma h266_accumulation_resumes (s : H266Record PrivLog) (pkt : TsPkt)
    (cur : PesPkt) :
  ts_PUSI pkt <> 1 ->
  WorkaroundPESFlag s = false ->
  curpkt s = Some cur ->
  exists s',
    Process PrivLog priv_hook pes_header s pkt = Ok s'
    /\ WorkaroundPESFlag s' = false
    /\ WorkaroundPES s' = WorkaroundPES s
    /\ curpkt s' = Some (accumulate cur (ts_Data pkt)).
Proof.
  intros Hp Hflag Hcur.
  unfold Process. rewrite (not_pusi pkt Hp). cbn [bind].
  unfold on_workaround.
  cbn [set_base WorkaroundPESFlag WorkaroundPES curpkt set_workaround].
  rewrite Hflag. cbn [bind]. eexists. split; [reflexivity|].
  unfold on_accumulate. cbn. rewrite Hcur. cbn. rewrite Hflag.
  repeat split; reflexivity.
Qed.






End Facts.
End H266EngineFacts.

Module MpeghEngineFacts.
Import Mhas MpeghRec EngineShared.

Section Facts.

Variable PrivLog : Type.
Variable priv_hook : TsPkt -> PrivLog -> PrivLog.
Variable pes_header : list byte -> Z * Z * Z.

(** [Flush] records no random-access event. *)
Lemma Flush_keeps_rap (s s' : MpeghAudioRecord PrivLog) :
  Flush s = Ok s' -> RapFrames s' = RapFrames s /\ RapLog s' = RapLog s.
Proof.
  unfold Flush. destruct (curpkt s) as [cur|].
  - unfold parseMhasPackets.
    destruct (mhas_scan (Data cur)) as [sc| |]; cbn [bind]; try discriminate.
    intros H. injection H as <-.
    destruct (len (packetTypes sc) >? 0); split; reflexivity.
  - intros H. injection H as <-. split; reflexivity.
Qed.

(** Leaving workaround mode: the flag falls, the buffer stays as it is. *)
Lemma mpegh_workaround_completes (s : MpeghAudioRecord PrivLog) (pkt : TsPkt)
    (cur : PesPkt) (hlen pts dts : Z) :
  ts_PUSI pkt <> 1 ->
  WorkaroundPESFlag s = true ->
  curpkt s = Some cur ->
  minMpeghAudioPesHeaderLen <= len (WorkaroundPES s ++ ts_Data pkt) ->
  slice (WorkaroundPES s ++ ts_Data pkt) 0 3 = startcode ->
  pes_header (WorkaroundPES s ++ ts_Data pkt) = (hlen, pts, dts) ->
  0 <= hlen <= len (WorkaroundPES s ++ ts_Data pkt) ->
  exists s',
    Process PrivLog priv_hook pes_header s pkt = Ok s'
    /\ WorkaroundPESFlag s' = false
    /\ WorkaroundPES s' = WorkaroundPES s ++ ts_Data pkt
    /\ curpkt s'
       = Some (accumulate
                 (mkPesPkt (Pos cur) pts dts (Pcr cur) (Size cur) (Data cur))
                 (skipn (Z.to_nat hlen) (WorkaroundPES s ++ ts_Data pkt)))
    /\ Pkts s' = Pkts s /\ MhasPackets s' = MhasPackets s.
Proof.
  intros Hp Hflag Hcur Hlen Hsc Hh Hhl.
  unfold Process. rewrite (not_pusi pkt Hp). cbn [bind].
  unfold on_workaround.
  cbn [set_base WorkaroundPESFlag WorkaroundPES curpkt set_workaround].
  rewrite Hflag.
  destruct (len (WorkaroundPES s ++ ts_Data pkt) >=? minMpeghAudioPesHeaderLen) eqn:G;
    [|lia].
  rewrite Hsc.
  assert (Eb : bytes_eqb startcode startcode = true) by reflexivity.
  rewrite Eb, Hcur. unfold Read. rewrite Hh.
  rewrite (slice_from_ok _ _ Hhl). cbn [of_option bind].
  eexists. split; [reflexivity|].
  unfold on_accumulate. cbn. repeat split; reflexivity.
Qed.

(** Below the threshold the buffer only grows. *)
Lemma mpegh_workaround_waits (s : MpeghAudioRecord PrivLog) (pkt : TsPkt) (cur : PesPkt) :
  ts_PUSI pkt <> 1 ->
  WorkaroundPESFlag s = true ->
  curpkt s = Some cur ->
  len (WorkaroundPES s ++ ts_Data pkt) < minMpeghAudioPesHeaderLen ->
  exists s',
    Process PrivLog priv_hook pes_header s pkt = Ok s'
    /\ WorkaroundPESFlag s' = true
    /\ WorkaroundPES s' = WorkaroundPES s ++ ts_Data pkt
    /\ curpkt s' = Some (accumulate cur []).
Proof.
  intros Hp Hflag Hcur Hlen.
  unfold Process. rewrite (not_pusi pkt Hp). cbn [bind].
  unfold on_workaround.
  cbn [set_base WorkaroundPESFlag WorkaroundPES curpkt set_workaround].
  rewrite Hflag.
  destruct (len (WorkaroundPES s ++ ts_Data pkt) >=? minMpeghAudioPesHeaderLen) eqn:G;
    [lia|].
  cbn [bind]. eexists. split; [reflexivity|].
  unfold on_accumulate. cbn. rewrite Hcur. cbn. repeat split; reflexivity.
Qed.







End Facts.
End MpeghEngineFacts.

Module EngineClaims.
Import H266 Samples.

(** C1.  The code at a payload with two random-access NAL units.  A PES
    packet carrying an IDR picture in two slices is finalized by the next
    PUSI packet, and [Process] records two events for that one payload:
    in general one event per random-access name in the payload's
    classifications. *)
Theorem Process_records_event_per_rap_nal :
  ParseVvcNalUnits idr_two_slices = ["idr_n_lp"; "idr_n_lp"]%string
  /\ H266Rec.run unit no_hook iso_pes_header h266_init [idr_pusi_pkt]
     = Ok h266_outstanding
  /\ (exists s',
        H266Rec.run unit no_hook iso_pes_header h266_init
                    [idr_pusi_pkt; pusi_pkt] = Ok s'
        /\ IFrames (H266Rec.base s') = [rap_event; rap_event]
        /\ List.length (H266Rec.Pkts s') = 1%nat)
  /\ (forall PrivLog (b : BaseRecord PrivLog) cur nals,
        IFrames (H266Rec.log_rap_nals b cur nals)
        = IFrames b ++ repeat (mkIFrameInfo (Pos cur) (Pts cur) true)
                              (List.length (filter is_rap_nal nals))).
Proof.
  split; [reflexivity|]. split; [reflexivity|]. split.
  - eexists. split; [reflexivity|]. split; reflexivity.
  - intros PrivLog b cur nals. apply H266EngineFacts.log_rap_nals_count.
Qed.

(** C3.  The code at an outstanding packet that holds a random-access
    unit.  [Flush] appends the same structural-unit record and the same
    packet to the histories as finalization by a PUSI packet does, but
    records no random-access event, in either record. *)
Theorem Flush_records_no_rap_event :
  (H266Rec.run unit no_hook iso_pes_header h266_init [idr_pusi_pkt]
   = Ok h266_outstanding
   /\ IFrames (H266Rec.base (H266Rec.Flush h266_outstanding)) = []
   /\ IFrames (H266Rec.base (H266Rec.finalize_on_pusi h266_outstanding))
      = [rap_event; rap_event])
  /\ (forall PrivLog (s : H266Rec.H266Record PrivLog),
        IFrames (H266Rec.base (H266Rec.Flush s)) = IFrames (H266Rec.base s)
        /\ H266Rec.Pkts (H266Rec.Flush s)
           = H266Rec.Pkts (H266Rec.finalize_on_pusi s)
        /\ H266Rec.NalInfos (H266Rec.Flush s)
           = H266Rec.NalInfos (H266Rec.finalize_on_pusi s))
  /\ MpeghRec.run unit no_hook iso_pes_header mpegh_init [mhas_pusi_pkt]
     = Ok mpegh_outstanding
  /\ exists f g,
       MpeghRec.Flush mpegh_outstanding = Ok f
       /\ MpeghRec.finalize_on_pusi mpegh_outstanding = Ok g
       /\ MpeghRec.MhasPackets f = MpeghRec.MhasPackets g
       /\ MpeghRec.Pkts f = MpeghRec.Pkts g
       /\ MpeghRec.RapFrames f = [] /\ MpeghRec.RapLog f = None
       /\ MpeghRec.RapFrames g = [188]
       /\ MpeghRec.RapLog g
          = Some ["Pos, PTS, Key"; "188, 1000, true"]%string.
Proof.
  split; [|split; [|split]].
  - repeat split; reflexivity.
  - intros PrivLog s. split; [apply H266EngineFacts.Flush_keeps_events|].
    apply H266EngineFacts.Flush_history.
  - reflexivity.
  - eexists. eexists. split; [reflexivity|]. split; [reflexivity|].
    repeat split; reflexivity.
Qed.




End EngineClaims.

(** * Further properties of the code *)

(** ** The NAL scan *)

Module NalScanLaws.
Import H266 H266Facts ScanFacts.

Lemma vvc_scan_extends data : forall fuel pos nals,
  exists tl, vvc_scan fuel data pos nals = nals ++ tl.
Proof.
  induction fuel as [|fuel IH]; intros pos nals; simpl.
  - exists []. now rewrite app_nil_r.
  - destruct (pos + 5 <? len data); [|exists []; now rewrite app_nil_r].
    destruct (bytes_eqb _ _).
    + destruct (pos + startlen + 1 <? len data).
      * destruct (IH (pos + startlen + 1)
                     (nals ++ [GetVvcNalUnitType
                                 (byte_Z (at_ data (pos + startlen + 1)))]))
          as (tl & ->).
        rewrite <- app_assoc. eauto.
      * apply IH.
    + apply IH.
Qed.

Lemma vvc_scan_count data : forall fuel pos nals,
  4 * len (vvc_scan fuel data pos nals)
  <= 4 * len nals + Z.max 0 (len data - pos - 2).
Proof.
  induction fuel as [|fuel IH]; intros pos nals; cbn [vvc_scan]; [lia|].
  destruct (pos + 5 <? len data) eqn:G; [|lia].
  apply Z.ltb_lt in G.
  destruct (bytes_eqb _ _).
  - change startlen with 3.
    destruct (pos + 3 + 1 <? len data) eqn:G2; [|apply Z.ltb_ge in G2; lia].
    specialize (IH (pos + 3 + 1)
                   (nals ++ [GetVvcNalUnitType (byte_Z (at_ data (pos + 3 + 1)))])).
    rewrite len_app in IH. change (len [_]) with 1 in IH. lia.
  - specialize (IH (pos + 1) nals). lia.
Qed.

(** X2.  [ParseVvcNalUnits] returns at most one name per four bytes after
    the first two, and nothing for a payload of five bytes or fewer. *)
Theorem ParseVvcNalUnits_count :
  forall data : list byte,
    4 * len (ParseVvcNalUnits data) <= Z.max 0 (len data - 2)
    /\ (len data <= 5 -> ParseVvcNalUnits data = []).
Proof.
  intros data.
  pose proof (vvc_scan_count data (List.length data) 0 []) as H.
  change (len (@nil string)) with 0 in H. fold (ParseVvcNalUnits data) in H.
  split; [lia|].
  intros Hs. destruct (ParseVvcNalUnits data) as [|a l]; [reflexivity|].
  unfold len in H at 1. simpl List.length in H. lia.
Qed.

Lemma ParseVvcNalUnits_count_witness :
  ParseVvcNalUnits Samples.nal_short = [].
Proof.
  apply (ParseVvcNalUnits_count Samples.nal_short). vm_compute. discriminate.
Defined.

Lemma slice_app_l (data more : list byte) (p : nat) :
  Z.of_nat p + 3 <= len data ->
  slice (data ++ more) (Z.of_nat p) (Z.of_nat p + 3)
  = slice data (Z.of_nat p) (Z.of_nat p + 3).
Proof.
  intros H. unfold slice, len in *.
  replace (Z.to_nat (Z.of_nat p + 3 - Z.of_nat p)) with 3%nat by lia.
  rewrite Nat2Z.id, skipn_app, firstn_app.
  replace (p - List.length data)%nat with 0%nat by lia.
  rewrite length_skipn.
  replace (3 - (List.length data - p))%nat with 0%nat by lia.
  simpl. now rewrite app_nil_r.
Qed.

Lemma at_app_l (data more : list byte) (i : nat) :
  Z.of_nat i < len data -> at_ (data ++ more) (Z.of_nat i) = at_ data (Z.of_nat i).
Proof.
  intros H. unfold at_, len in *. rewrite Nat2Z.id. apply app_nth1. lia.
Qed.

Lemma vvc_scan_app data more : forall fuel (p : nat) nals,
  (List.length data <= p + fuel)%nat ->
  exists tl,
    vvc_scan (fuel + List.length more) (data ++ more) (Z.of_nat p) nals
    = vvc_scan fuel data (Z.of_nat p) nals ++ tl.
Proof.
  induction fuel as [|fuel IH]; intros p nals Hfuel.
  - cbn [vvc_scan Nat.add]. apply vvc_scan_extends.
  - cbn [vvc_scan Nat.add].
    destruct (Z.of_nat p + 5 <? len data) eqn:G.
    + apply Z.ltb_lt in G.
      assert (G' : (Z.of_nat p + 5 <? len (data ++ more)) = true).
      { apply Z.ltb_lt. rewrite len_app. pose proof (len_nonneg more). lia. }
      rewrite G'. change startlen with 3.
      rewrite slice_app_l by lia.
      destruct (bytes_eqb startcode _).
      * replace (Z.of_nat p + 3 + 1) with (Z.of_nat (p + 4)) by lia.
        rewrite at_app_l by lia.
        assert (I1 : (Z.of_nat (p + 4) <? len data) = true)
          by (apply Z.ltb_lt; lia).
        assert (I2 : (Z.of_nat (p + 4) <? len (data ++ more)) = true).
        { apply Z.ltb_lt. rewrite len_app. pose proof (len_nonneg more). lia. }
        rewrite I1, I2. apply IH. lia.
      * replace (Z.of_nat p + 1) with (Z.of_nat (S p)) by lia.
        apply IH. lia.
    + exact (vvc_scan_extends (data ++ more) (S (fuel + List.length more))
                              (Z.of_nat p) nals).
Qed.

(** X1.  Appending bytes to a payload only appends classifications: the
    names found in [data] are a prefix of those found in [data ++ more]. *)
Theorem ParseVvcNalUnits_prefix :
  forall data more : list byte,
    exists tl,
      ParseVvcNalUnits (data ++ more) = ParseVvcNalUnits data ++ tl.
Proof.
  intros data more. unfold ParseVvcNalUnits. rewrite length_app.
  apply (vvc_scan_app data more (List.length data) 0 []). lia.
Qed.

End NalScanLaws.

Module NalSoundLaws.
Import H266 H266Facts ScanFacts.

Lemma vvc_scan_sound data : forall fuel (p : nat) nals,
  exists ps,
    vvc_scan fuel data (Z.of_nat p) nals = nals ++ map (classify_at data) ps
    /\ StronglySorted Z.lt ps
    /\ Forall (fun q => Z.of_nat p <= q /\ marker_at data q = true
                        /\ q + 5 < len data) ps.
Proof.
  induction fuel as [|fuel IH]; intros p nals; cbn [vvc_scan].
  - exists []. rewrite app_nil_r. repeat constructor.
  - destruct (Z.of_nat p + 5 <? len data) eqn:G;
      [|exists []; rewrite app_nil_r; repeat constructor].
    apply Z.ltb_lt in G.
    change (bytes_eqb startcode
              (slice data (Z.of_nat p) (Z.of_nat p + startlen)))
      with (marker_at data (Z.of_nat p)).
    destruct (marker_at data (Z.of_nat p)) eqn:M.
    + replace (Z.of_nat p + startlen + 1) with (Z.of_nat (p + 4))
        by (change startlen with 3; lia).
      assert (I : (Z.of_nat (p + 4) <? len data) = true)
        by (apply Z.ltb_lt; lia).
      rewrite I.
      destruct (IH (p + 4)%nat
                   (nals ++ [GetVvcNalUnitType
                               (byte_Z (at_ data (Z.of_nat (p + 4))))]))
        as (ps & E & Hs & Hf).
      exists (Z.of_nat p :: ps). split; [|split].
      * rewrite E, <- app_assoc. cbn [map app]. unfold classify_at at 2.
        replace (Z.of_nat p + 4) with (Z.of_nat (p + 4)) by lia. reflexivity.
      * constructor; [exact Hs|].
        eapply Forall_impl; [|exact Hf]. cbn. intros q (Hq & _). lia.
      * constructor; [repeat split; try assumption; lia|].
        eapply Forall_impl; [|exact Hf]. cbn. intros q (Hq & Hm & Hr).
        repeat split; try assumption; lia.
    + replace (Z.of_nat p + 1) with (Z.of_nat (S p)) by lia.
      destruct (IH (S p) nals) as (ps & E & Hs & Hf).
      exists ps. split; [exact E|]. split; [exact Hs|].
      eapply Forall_impl; [|exact Hf]. cbn. intros q (Hq & Hm & Hr).
      repeat split; try assumption; lia.
Qed.

Lemma sorted_lt_NoDup (ps : list Z) : StronglySorted Z.lt ps -> NoDup ps.
Proof.
  induction 1 as [|a l Hs IH Hf]; constructor; [|exact IH].
  intros Hin. rewrite Forall_forall in Hf. specialize (Hf a Hin). lia.
Qed.

(** X3.  Every name [ParseVvcNalUnits] returns is the classification of an
    occurrence of the marker [00 00 01] that has at least three bytes after
    it; the occurrences are taken left to right, each at most once, so there
    are never more names than occurrences. *)
Theorem ParseVvcNalUnits_sound :
  forall data : list byte,
    exists ps,
      ParseVvcNalUnits data = map (classify_at data) ps
      /\ StronglySorted Z.lt ps
      /\ Forall (fun q => In q (markers data) /\ q + 5 < len data) ps
      /\ (List.length (ParseVvcNalUnits data)
          <= List.length (markers data))%nat.
Proof.
  intros data.
  destruct (vvc_scan_sound data (List.length data) 0%nat [])
    as (ps & E & Hs & Hf).
  assert (Hin : Forall (fun q => In q (markers data) /\ q + 5 < len data) ps).
  { eapply Forall_impl; [|exact Hf]. cbn. intros q (Hq & Hm & Hr).
    split; [|exact Hr]. apply markers_in. exists (Z.to_nat q).
    split; [lia | exact Hm]. }
  exists ps. split; [exact E|]. split; [exact Hs|]. split; [exact Hin|].
  unfold ParseVvcNalUnits. change 0 with (Z.of_nat 0). rewrite E.
  cbn [app]. rewrite length_map.
  apply NoDup_incl_length; [now apply sorted_lt_NoDup|].
  intros q Hq. rewrite Forall_forall in Hin. now apply Hin.
Qed.

Lemma table_NoDup : NoDup VvcNalUnitType.
Proof.
  unfold VvcNalUnitType.
  repeat (constructor; [cbn [In]; intuition discriminate|]). constructor.
Qed.

Lemma nal_index_nat b :
  exists n : nat, (n < 32)%nat /\ nal_index b = Z.of_nat n.
Proof.
  pose proof (nal_index_range b) as H.
  exists (Z.to_nat (nal_index b)). split; lia.
Qed.

(** X4.  The name of a NAL unit determines its type index and back: two
    header bytes get the same name exactly when their bits 3..7 agree.  A
    name is a random-access name ([idr_w_radl], [idr_n_lp], [cra_nut])
    exactly for the indices 7, 8 and 9; bits 0..2 and everything above
    bit 7 play no part. *)
Theorem GetVvcNalUnitType_by_index :
  forall b1 b2 : Z,
    (GetVvcNalUnitType b1 = GetVvcNalUnitType b2
     <-> nal_index b1 = nal_index b2)
    /\ is_rap_nal (GetVvcNalUnitType b1)
       = (7 <=? nal_index b1) && (nal_index b1 <=? 9)
    /\ nal_index b1 = (b1 / 8) mod 32.
Proof.
  intros b1 b2. split; [|split].
  - split.
    + rewrite !GetVvcNalUnitType_nth. intros E.
      pose proof (nal_index_range b1). pose proof (nal_index_range b2).
      apply (proj1 (NoDup_nth VvcNalUnitType "unknown"%string) table_NoDup)
        in E; try (change (List.length VvcNalUnitType) with 32%nat; lia).
    + unfold GetVvcNalUnitType. cbv zeta. now intros ->.
  - rewrite GetVvcNalUnitType_nth.
    destruct (nal_index_nat b1) as (n & Hn & ->). rewrite Nat2Z.id.
    do 32 (destruct n as [|n]; [reflexivity|]). lia.
  - unfold nal_index. change 0x1F with (Z.ones 5).
    rewrite Z.land_ones, Z.shiftr_div_pow2 by lia. reflexivity.
Qed.

End NalSoundLaws.

(** ** The MHAS packet types and the MHAS scan *)

Module MhasTypeLaws.
Import Mhas Laws.

Lemma known_code_cases t :
  known_code t = true ->
  t = 0 \/ t = 1 \/ t = 2 \/ t = 3 \/ t = 6 \/ t = 7 \/ t = 8 \/ t = 9
  \/ t = 10 \/ t = 11 \/ t = 12 \/ t = 13 \/ t = 14 \/ t = 15 \/ t = 16
  \/ t = 17 \/ t = 18.
Proof. unfold known_code. lia. Qed.

Lemma unknown_code_lookup t :
  known_code t = false -> lookup t typeMap = None.
Proof.
  unfold known_code. intros H. cbn [lookup typeMap].
  repeat (match goal with
          | |- context [t =? ?k] =>
            destruct (t =? k) eqn:E; [apply Z.eqb_eq in E; lia | clear E]
          end).
  reflexivity.
Qed.

(** X5.  [GetMpeghAudioPacketType] names the codes 0..3 and 6..18 from the
    table, with different names for different codes; every other code,
    4 and 5 among them, becomes ["unknown_<code>"], and no code is refused.
    The name is one of the two random-access names exactly for the codes 1
    and 6. *)
Theorem GetMpeghAudioPacketType_cases :
  forall t t' : Z,
    (known_code t = true -> In (GetMpeghAudioPacketType t) MpeghAudioPacketType)
    /\ (known_code t = false ->
        GetMpeghAudioPacketType t = ("unknown_" ++ FormatInt t)%string)
    /\ (known_code t = true -> known_code t' = true ->
        GetMpeghAudioPacketType t = GetMpeghAudioPacketType t' -> t = t')
    /\ is_rap_name (GetMpeghAudioPacketType t) = (t =? 1) || (t =? 6)
    /\ known_code 4 = false /\ known_code 5 = false.
Proof.
  intros t t'. split; [|split; [|split; [|split]]].
  - intros H. apply known_code_cases in H.
    repeat (destruct H as [->|H]; [cbv; tauto|]). subst. cbv; tauto.
  - intros H. unfold GetMpeghAudioPacketType. cbv zeta.
    now rewrite unknown_code_lookup.
  - intros H H'. apply known_code_cases in H. apply known_code_cases in H'.
    repeat (destruct H as [->|H]);
      repeat (destruct H' as [->|H']); subst;
      (reflexivity || (intros E; vm_compute in E; discriminate E)).
  - destruct (known_code t) eqn:K.
    + apply known_code_cases in K.
      repeat (destruct K as [->|K]; [reflexivity|]). subst. reflexivity.
    + unfold GetMpeghAudioPacketType. cbv zeta.
      rewrite (unknown_code_lookup t K).
      unfold known_code in K.
      destruct (t =? 1) eqn:E1; [apply Z.eqb_eq in E1; lia|].
      destruct (t =? 6) eqn:E6; [apply Z.eqb_eq in E6; lia|].
      reflexivity.
  - split; reflexivity.
Qed.

Lemma GetMpeghAudioPacketType_cases_witness :
  GetMpeghAudioPacketType 5 = "unknown_5"%string
  /\ In (GetMpeghAudioPacketType 6) MpeghAudioPacketType.
Proof.
  split.
  - apply (GetMpeghAudioPacketType_cases 5 5). reflexivity.
  - apply (GetMpeghAudioPacketType_cases 6 6). reflexivity.
Defined.

End MhasTypeLaws.

Module MhasScanLaws.
Import Mhas MhasRule MhasFacts MhasLoopFacts MhasTypeLaws Laws Samples.

(** The bits one escaped value takes. *)
Lemma escaped_value_rule_bits r n m k v r' :
  0 <= n -> 0 <= m -> 0 <= k ->
  cursor_ok r ->
  escaped_value_rule r n m k = Ok (v, r') ->
  bitpos r' = bitpos r + n \/ bitpos r' = bitpos r + n + m
  \/ bitpos r' = bitpos r + n + m + k.
Proof.
  intros Hn Hm Hk Hok. unfold escaped_value_rule.
  destruct (read_unsigned r n) as [[v1 r1]| |] eqn:E1; try discriminate.
  destruct (read_unsigned_cursor _ _ _ _ Hn Hok E1) as (Ok1 & D1 & P1).
  cbn [bind]. destruct (v1 <? 2 ^ n - 1).
  - intros H. injection H as <- <-. auto.
  - destruct (read_unsigned r1 m) as [[v2 r2]| |] eqn:E2; try discriminate.
    destruct (read_unsigned_cursor _ _ _ _ Hm Ok1 E2) as (Ok2 & D2 & P2).
    cbn [bind]. destruct (v2 =? 2 ^ m - 1).
    + destruct (read_unsigned r2 k) as [[v3 r3]| |] eqn:E3; try discriminate.
      destruct (read_unsigned_cursor _ _ _ _ Hk Ok2 E3) as (Ok3 & D3 & P3).
      cbn [bind]. intros H. injection H as <- <-. right. right. lia.
    + intros H. injection H as <- <-. right. left. lia.
Qed.

(** X6.  One MHAS packet header is a whole number of bytes, between 2 and
    15: read at a byte boundary it ends at a byte boundary.  The packet type
    it carries is at most 517 and the packet length at most 33556477. *)
Theorem read_header_whole_bytes :
  forall (r r' : Reader) (t l : Z),
    cursor_ok r -> Off r = 0 ->
    read_header r = Ok (t, l, r') ->
    Off r' = 0
    /\ Base r + 2 <= Base r' <= Base r + 15
    /\ Base r' <= len (BitReader.Data r)
    /\ 0 <= t <= 517 /\ 0 <= l <= 33556477.
Proof.
  intros r r' t l Hok Hoff. unfold read_header.
  rewrite !parseEscapedValue_rule by (cbn; lia).
  destruct (escaped_value_rule r 3 8 8) as [[t1 r1]| |] eqn:E1;
    try discriminate.
  pose proof (escaped_value_rule_value r 3 8 8 t1 r1 ltac:(lia) ltac:(lia)
                ltac:(lia) E1) as V1.
  pose proof (escaped_value_rule_bits r 3 8 8 t1 r1 ltac:(lia) ltac:(lia)
                ltac:(lia) Hok E1) as B1.
  apply escaped_value_rule_cursor in E1; try lia; [|exact Hok].
  destruct E1 as (Ok1 & D1 & _). cbn [bind].
  rewrite !parseEscapedValue_rule by (cbn; lia).
  destruct (escaped_value_rule r1 2 8 32) as [[t2 r2]| |] eqn:E2;
    try discriminate.
  pose proof (escaped_value_rule_bits r1 2 8 32 t2 r2 ltac:(lia) ltac:(lia)
                ltac:(lia) Ok1 E2) as B2.
  apply escaped_value_rule_cursor in E2; try lia; [|exact Ok1].
  destruct E2 as (Ok2 & D2 & _). cbn [bind].
  rewrite !parseEscapedValue_rule by (cbn; lia).
  destruct (escaped_value_rule r2 11 24 24) as [[t3 r3]| |] eqn:E3;
    try discriminate.
  pose proof (escaped_value_rule_value r2 11 24 24 t3 r3 ltac:(lia)
                ltac:(lia) ltac:(lia) E3) as V3.
  pose proof (escaped_value_rule_bits r2 11 24 24 t3 r3 ltac:(lia)
                ltac:(lia) ltac:(lia) Ok2 E3) as B3.
  apply escaped_value_rule_cursor in E3; try lia; [|exact Ok2].
  destruct E3 as (Ok3 & D3 & _). cbn [bind].
  intros H. injection H as <- <- <-.
  destruct Ok3 as (O3 & Hb3). rewrite D3, D2, D1 in Hb3.
  unfold bitpos in *. destruct Hok as (O0 & _).
  change (2 ^ 3) with 8 in V1. change (2 ^ 8) with 256 in V1.
  change (2 ^ 11) with 2048 in V3. change (2 ^ 24) with 16777216 in V3.
  destruct Ok1 as (O1 & _). destruct Ok2 as (O2 & _).
  repeat split; try lia.
Qed.

Lemma read_header_whole_bytes_witness :
  Off (mkReader mhas_cfg 2 0) = 0 /\ 0 <= 1 <= 517.
Proof.
  destruct (read_header_whole_bytes (mkReader mhas_cfg 0 0)
              (mkReader mhas_cfg 2 0) 1 3) as (H1 & _ & _ & H2 & _).
  - unfold cursor_ok. cbn. lia.
  - reflexivity.
  - reflexivity.
  - split; assumption.
Defined.

End MhasScanLaws.

Module MhasLoopLaws.
Import Mhas MhasRule MhasFacts MhasLoopFacts MhasTypeLaws MhasScanLaws.
Import Laws Samples MpeghRec.

Lemma mhas_iter_exit_inv data s :
  mhas_iter data s = Exit -> len data < Base (rd s) + 2.
Proof.
  unfold mhas_iter. cbv zeta.
  destruct (Base (rd s) <? len data) eqn:G1; [|apply Z.ltb_ge in G1; lia].
  destruct (Base (rd s) + 2 >? len data) eqn:G2; [lia|].
  destruct (read_header (rd s)) as [[[t l] r]| |]; try discriminate.
  destruct (l >? _); discriminate.
Qed.

Lemma mhas_iter_accept_off data s s' :
  mhas_iter data s = Accept s' ->
  exists t l r, read_header (rd s) = Ok (t, l, r) /\ Off (rd s') = Off r.
Proof.
  unfold mhas_iter. cbv zeta.
  destruct (Base (rd s) <? len data); [|discriminate].
  destruct (Base (rd s) + 2 >? len data); [discriminate|].
  destruct (read_header (rd s)) as [[[t l] r]| |]; try discriminate.
  destruct (l >? _); [discriminate|].
  intros H. injection H as <-. exists t, l, r. split; reflexivity.
Qed.

(** An invariant of the passes holds when the loop returns, and the loop
    returns only where a pass would exit. *)
Lemma mhas_loop_inv data (P : scan -> Prop) :
  (forall s s', scan_ok data s -> P s -> mhas_iter data s = Resync s' -> P s') ->
  (forall s s', scan_ok data s -> P s -> mhas_iter data s = Accept s' -> P s') ->
  forall fuel s sc,
    scan_ok data s -> P s -> mhas_loop fuel data s = Ok sc ->
    P sc /\ scan_ok data sc /\ mhas_iter data sc = Exit.
Proof.
  intros HR HA. induction fuel as [|fuel IH]; intros s sc Hok HP;
    cbn [mhas_loop]; [discriminate|].
  destruct (mhas_iter data s) as [|s'|s'|] eqn:E; try discriminate.
  - intros H. injection H as <-. auto.
  - apply IH.
    + now destruct (mhas_iter_resync _ _ _ Hok E).
    + eapply HR; eassumption.
  - apply IH.
    + now destruct (mhas_iter_accept _ _ _ Hok E).
    + eapply HA; eassumption.
Qed.

Lemma scan_inv_resync data s s' :
  scan_ok data s -> scan_inv s -> mhas_iter data s = Resync s' -> scan_inv s'.
Proof.
  intros Hok (I1 & I2 & I3) E.
  destruct (mhas_iter_resync _ _ _ Hok E) as (_ & Hb & Ho & Ht & Hr).
  unfold scan_inv. rewrite Hb, Ho, Ht, Hr. repeat split; try assumption. lia.
Qed.

Lemma scan_inv_accept data s s' :
  scan_ok data s -> scan_inv s -> mhas_iter data s = Accept s' -> scan_inv s'.
Proof.
  intros Hok (I1 & I2 & I3) E.
  destruct (mhas_iter_accept _ _ _ Hok E)
    as (_ & Hb & t & l & r & Hh & _ & _ & _ & Ht & Hr).
  destruct (mhas_iter_accept_off _ _ _ E) as (t' & l' & r' & Hh' & Ho).
  rewrite Hh in Hh'. injection Hh' as <- <- <-.
  destruct Hok as (_ & Hc).
  destruct (read_header_whole_bytes _ _ _ _ Hc I1 Hh) as (Hoff & _).
  unfold scan_inv. rewrite Ho, Ht, Hr, len_app, existsb_app.
  change (len [GetMpeghAudioPacketType t]) with 1. cbn [existsb].
  destruct (GetMpeghAudioPacketType_cases t t) as (_ & _ & _ & Hn & _).
  rewrite Hn, I3, orb_false_r.
  repeat split; try assumption; try lia.
  destruct ((t =? 1) || (t =? 6)); [now rewrite orb_true_r|].
  now rewrite orb_false_r.
Qed.

Lemma mhas_scan_inv data sc :
  mhas_scan data = Ok sc ->
  scan_inv sc /\ scan_ok data sc /\ mhas_iter data sc = Exit.
Proof.
  unfold mhas_scan.
  apply (mhas_loop_inv data scan_inv (scan_inv_resync data)
                       (scan_inv_accept data)).
  - apply initial_scan_ok.
  - unfold scan_inv. cbn. repeat split; lia.
Qed.

(** X7.  The flag [parseMhasPackets] returns is set exactly when a
    configuration or a sync packet is among the packets it classified. *)
Theorem mhas_rap_flag_of_names :
  forall (data : list byte) (sc : scan),
    mhas_scan data = Ok sc ->
    isRap sc = existsb is_rap_name (packetTypes sc)
    /\ (isRap sc = true <->
        In "PACTYP_MPEGH3DACFG"%string (packetTypes sc)
        \/ In "PACTYP_SYNC"%string (packetTypes sc)).
Proof.
  intros data sc H. destruct (mhas_scan_inv data sc H) as ((_ & _ & I3) & _).
  split; [exact I3|]. rewrite I3, existsb_exists. split.
  - intros (x & Hin & Hx). unfold is_rap_name in Hx.
    apply orb_true_iff in Hx. destruct Hx as [Hx|Hx];
      apply String.eqb_eq in Hx; subst; auto.
  - intros [Hin|Hin]; eexists; (split; [exact Hin|reflexivity]).
Qed.

Lemma mhas_rap_flag_of_names_witness :
  In "PACTYP_MPEGH3DACFG"%string
     (packetTypes (mkScan (mkReader mhas_cfg 5 0)
                          ["PACTYP_MPEGH3DACFG"%string] true))
  \/ In "PACTYP_SYNC"%string
        (packetTypes (mkScan (mkReader mhas_cfg 5 0)
                             ["PACTYP_MPEGH3DACFG"%string] true)).
Proof.
  apply (mhas_rap_flag_of_names mhas_cfg
           (mkScan (mkReader mhas_cfg 5 0) ["PACTYP_MPEGH3DACFG"%string] true)).
  - reflexivity.
  - reflexivity.
Defined.

(** X8.  When the MHAS scan returns it has read the payload to within two
    bytes of its end, stands on a byte boundary, and has classified at most
    one packet per two bytes of payload. *)
Theorem mhas_scan_reads_to_end :
  forall (data : list byte) (sc : scan),
    mhas_scan data = Ok sc ->
    len data - 2 < Base (rd sc) <= len data
    /\ Off (rd sc) = 0
    /\ 2 * len (packetTypes sc) <= len data.
Proof.
  intros data sc H.
  destruct (mhas_scan_inv data sc H) as ((I1 & I2 & _) & (Hd & _ & Hb) & E).
  apply mhas_iter_exit_inv in E. rewrite Hd in Hb. lia.
Qed.

Lemma mhas_scan_reads_to_end_witness :
  2 * len ["PACTYP_MPEGH3DACFG"%string] <= len mhas_cfg.
Proof.
  apply (mhas_scan_reads_to_end mhas_cfg
           (mkScan (mkReader mhas_cfg 5 0) ["PACTYP_MPEGH3DACFG"%string] true)).
  reflexivity.
Defined.

(** X9.  A payload of fewer than two bytes, the empty one included, is
    scanned without a read: nothing is classified, no record is appended,
    the flag is false and there is no panic. *)
Theorem parseMhasPackets_short_payload :
  forall PrivLog (s : MpeghAudioRecord PrivLog) (data : list byte)
         (pos pts : Z),
    len data < 2 ->
    mhas_scan data = Ok (mkScan (mkReader data 0 0) [] false)
    /\ parseMhasPackets s data pos pts = Ok (s, false).
Proof.
  intros PrivLog s data pos pts Hlen.
  assert (E : mhas_scan data = Ok (mkScan (mkReader data 0 0) [] false)).
  { unfold mhas_scan. cbn [mhas_loop].
    rewrite mhas_iter_exit_at_end; [reflexivity|]. cbn. lia. }
  split; [exact E|]. unfold parseMhasPackets. rewrite E. reflexivity.
Qed.

Lemma parseMhasPackets_short_payload_witness :
  parseMhasPackets mpegh_init [xff] 0 0 = Ok (mpegh_init, false).
Proof.
  apply (parseMhasPackets_short_payload unit mpegh_init [xff] 0 0).
  vm_compute. reflexivity.
Defined.

End MhasLoopLaws.

(** ** The H.266 record *)

Module H266Laws.
Import H266 H266Rec EngineShared Laws Samples.

Section Steps.

Variable PrivLog : Type.
Variable priv_hook : TsPkt -> PrivLog -> PrivLog.
Variable pes_header : list byte -> Z * Z * Z.

Lemma Read_keeps_bytes (p p' : PesPkt) (data : list byte) (hlen : Z) :
  Read pes_header p data = (p', hlen) ->
  Pos p' = Pos p /\ Pcr p' = Pcr p /\ Size p' = Size p /\ Data p' = Data p.
Proof.
  unfold Read. destruct (pes_header data) as [[h pts] dts].
  intros H. injection H as <- <-. repeat split.
Qed.

(** The histories after the PUSI branch are those of the finalization; the
    current packet is new and empty. *)
Lemma h266_on_pusi_frame (s s' : H266Record PrivLog) pkt data :
  on_pusi PrivLog pes_header s pkt = Ok (s', data) ->
  Pkts s' = Pkts (finalize_on_pusi s)
  /\ NalInfos s' = NalInfos (finalize_on_pusi s)
  /\ base s' = base (finalize_on_pusi s)
  /\ exists c, curpkt s' = Some c /\ Size c = 0 /\ Data c = []
               /\ Pos c = ts_Pos pkt.
Proof.
  unfold on_pusi. cbv zeta.
  destruct (len (ts_Data pkt) >=? minVvcPesHeaderLen).
  - destruct (bytes_eqb startcode (slice (ts_Data pkt) 0 3)).
    + destruct (Read pes_header _ (ts_Data pkt)) as [c hlen] eqn:R.
      apply Read_keeps_bytes in R. cbn in R.
      destruct (slice_from (ts_Data pkt) hlen); cbn [of_option bind];
        [|discriminate].
      intros H. injection H as <- <-. cbn. repeat split.
      destruct R as (RP & _ & RS & RD). exists c. auto.
    + intros H. injection H as <- <-. cbn. repeat split.
      eexists. repeat split.
  - intros H. injection H as <- <-. cbn. repeat split.
    eexists. repeat split.
Qed.

(** The workaround block touches the flag, the buffer and the timestamps
    of the current packet, nothing else. *)
Lemma h266_on_workaround_frame (s s' : H266Record PrivLog) data data' :
  on_workaround PrivLog pes_header s data = Ok (s', data') ->
  Pkts s' = Pkts s /\ NalInfos s' = NalInfos s /\ base s' = base s
  /\ match curpkt s, curpkt s' with
     | Some c, Some c' =>
       Pos c' = Pos c /\ Pcr c' = Pcr c /\ Size c' = Size c /\ Data c' = Data c
     | None, None => True
     | _, _ => False
     end.
Proof.
  unfold on_workaround. cbv zeta.
  destruct (WorkaroundPESFlag s).
  - destruct (len (WorkaroundPES s ++ data) >=? minVvcPesHeaderLen).
    + destruct (bytes_eqb startcode _).
      * cbn [curpkt set_workaround]. destruct (curpkt s) as [c|] eqn:C;
          [|discriminate].
        destruct (Read pes_header c _) as [c' hlen] eqn:R.
        apply Read_keeps_bytes in R.
        destruct (slice_from _ hlen); cbn [of_option bind]; [|discriminate].
        intros H. injection H as <- <-. cbn. tauto.
      * intros H. injection H as <- <-. cbn. destruct (curpkt s); tauto.
    + intros H. injection H as <- <-. cbn. destruct (curpkt s); tauto.
  - intros H. injection H as <- <-. destruct (curpkt s); tauto.
Qed.

(** [Process], seen from the histories. *)
Lemma h266_Process_histories (s s' : H266Record PrivLog) pkt :
  Process PrivLog priv_hook pes_header s pkt = Ok s' ->
  (ts_PUSI pkt = 1
   /\ Pkts s' = Pkts (finalize_on_pusi s)
   /\ NalInfos s' = NalInfos (finalize_on_pusi s))
  \/ (ts_PUSI pkt <> 1 /\ Pkts s' = Pkts s /\ NalInfos s' = NalInfos s).
Proof.
  unfold Process. cbv zeta.
  destruct (ts_PUSI pkt =? 1) eqn:P.
  - apply Z.eqb_eq in P.
    destruct (on_pusi _ _ _ pkt) as [[s1 d1]| |] eqn:E1; cbn [bind];
      try discriminate.
    apply h266_on_pusi_frame in E1. destruct E1 as (K1 & N1 & _).
    destruct (on_workaround _ _ s1 d1) as [[s2 d2]| |] eqn:E2; cbn [bind];
      try discriminate.
    apply h266_on_workaround_frame in E2. destruct E2 as (K2 & N2 & _).
    intros H. injection H as <-. left. split; [exact P|].
    unfold on_accumulate. destruct (curpkt s2); cbn [Pkts NalInfos set_curpkt];
      rewrite K2, N2, K1, N1; unfold finalize_on_pusi; cbn;
      destruct (curpkt s); split; reflexivity.
  - apply Z.eqb_neq in P. cbn [bind].
    destruct (on_workaround _ _ _ (ts_Data pkt)) as [[s2 d2]| |] eqn:E2;
      cbn [bind]; try discriminate.
    apply h266_on_workaround_frame in E2. destruct E2 as (K2 & N2 & _).
    intros H. injection H as <-. right. split; [exact P|].
    unfold on_accumulate. destruct (curpkt s2); cbn [Pkts NalInfos set_curpkt];
      rewrite K2, N2; split; reflexivity.
Qed.

Lemma finalize_in_step (s : H266Record PrivLog) :
  nal_in_step s -> nal_in_step (finalize_on_pusi s).
Proof.
  unfold nal_in_step, finalize_on_pusi. intros H.
  destruct (curpkt s) as [c|]; [|exact H].
  cbn. rewrite H, map_app. reflexivity.
Qed.

Lemma Flush_in_step (s : H266Record PrivLog) :
  nal_in_step s -> nal_in_step (Flush s).
Proof.
  unfold nal_in_step, Flush. intros H.
  destruct (curpkt s) as [c|]; [|exact H].
  cbn. rewrite H, map_app. reflexivity.
Qed.

Lemma Process_in_step (s s' : H266Record PrivLog) pkt :
  nal_in_step s ->
  Process PrivLog priv_hook pes_header s pkt = Ok s' -> nal_in_step s'.
Proof.
  intros H E. apply h266_Process_histories in E.
  destruct E as [(_ & K & N)|(_ & K & N)]; unfold nal_in_step;
    rewrite K, N; [apply finalize_in_step|]; exact H.
Qed.

Lemma run_in_step : forall pkts (s s' : H266Record PrivLog),
  nal_in_step s ->
  run PrivLog priv_hook pes_header s pkts = Ok s' -> nal_in_step s'.
Proof.
  induction pkts as [|pkt pkts IH]; intros s s' H; cbn [run].
  - intros E. injection E as <-. exact H.
  - destruct (Process _ _ _ s pkt) as [s1| |] eqn:E1; cbn [bind];
      try discriminate.
    apply IH. eapply Process_in_step; eassumption.
Qed.

End Steps.

(** X10.  The NAL history stays in step with the packet history: for a
    record that starts without a current packet (as a fresh record does)
    and in step, after any sequence of [Process] calls, and after the
    [Flush] that closes it, the [i]-th structural-unit record carries the
    [Pos], the [Pts] and the NAL names of the [i]-th finalized packet, so
    [<PID>-nal.csv] has one row for each row of [<PID>.csv], in the same
    order. *)
Theorem h266_histories_in_step :
  forall PrivLog (priv_hook : TsPkt -> PrivLog -> PrivLog)
         (pes_header : list byte -> Z * Z * Z)
         (s s' : H266Record PrivLog) (pkts : list TsPkt) (root : string),
    curpkt s = None ->
    nal_in_step s ->
    run PrivLog priv_hook pes_header s pkts = Ok s' ->
    NalInfos s' = map nal_of (Pkts s')
    /\ NalInfos (Flush s') = map nal_of (Pkts (Flush s'))
    /\ map (fun f => List.length (snd f)) (Report (Flush s') root)
       = [S (List.length (Pkts (Flush s')));
          S (List.length (Pkts (Flush s')))].
Proof.
  intros PrivLog priv_hook pes_header s s' pkts root _ H E.
  pose proof (run_in_step PrivLog priv_hook pes_header pkts s s' H E) as H'.
  pose proof (Flush_in_step PrivLog s' H') as HF.
  split; [exact H'|]. split; [exact HF|].
  unfold Report, timing_file. cbn [map snd List.length].
  rewrite HF, !length_map. reflexivity.
Qed.

Lemma h266_histories_in_step_witness :
  exists s',
    run unit no_hook iso_pes_header h266_init [idr_pusi_pkt; pusi_pkt] = Ok s'
    /\ NalInfos s' = map nal_of (Pkts s').
Proof.
  eexists. split; [reflexivity|].
  apply (h266_histories_in_step unit no_hook iso_pes_header h266_init _
           [idr_pusi_pkt; pusi_pkt] ""%string).
  - reflexivity.
  - reflexivity.
  - reflexivity.
Defined.

End H266Laws.

Module H266Reassembly.
Import H266 H266Rec EngineShared Laws Samples H266Laws NalScanLaws.

Lemma wrap64_add_l a b : wrap64 (wrap64 a + b) = wrap64 (a + b).
Proof.
  unfold wrap64. f_equal.
  replace ((a + 2 ^ 63) mod 2 ^ 64 - 2 ^ 63 + b + 2 ^ 63)
    with ((a + 2 ^ 63) mod 2 ^ 64 + b) by lia.
  rewrite Zplus_mod_idemp_l. f_equal. lia.
Qed.

Lemma accumulate_size_ok (p : PesPkt) (data : list byte) :
  size_ok p -> size_ok (accumulate p data).
Proof.
  unfold size_ok, accumulate, add64. cbn. intros ->.
  now rewrite wrap64_add_l, len_app.
Qed.

Section Steps.

Variable PrivLog : Type.
Variable priv_hook : TsPkt -> PrivLog -> PrivLog.
Variable pes_header : list byte -> Z * Z * Z.

Lemma slice_head_app (buf more : list byte) :
  3 <= len buf -> slice (buf ++ more) 0 3 = slice buf 0 3.
Proof. intros H. exact (slice_app_l buf more 0 H). Qed.

(** One packet without PUSI in a workaround mode whose buffer does not
    begin with the marker. *)
Lemma h266_stuck_step (s : H266Record PrivLog) pkt cur :
  no_pusi pkt ->
  WorkaroundPESFlag s = true -> curpkt s = Some cur ->
  3 <= len (WorkaroundPES s) -> slice (WorkaroundPES s) 0 3 <> startcode ->
  exists s',
    Process PrivLog priv_hook pes_header s pkt = Ok s'
    /\ WorkaroundPESFlag s' = true
    /\ WorkaroundPES s' = WorkaroundPES s ++ ts_Data pkt
    /\ curpkt s' = Some (accumulate cur [])
    /\ Pkts s' = Pkts s.
Proof.
  intros Hp Hflag Hcur Hlen Hne.
  unfold Process. rewrite (not_pusi pkt Hp). cbn [bind].
  unfold on_workaround.
  cbn [set_base WorkaroundPESFlag WorkaroundPES curpkt set_workaround].
  rewrite Hflag, slice_head_app by exact Hlen.
  assert (Eb : bytes_eqb startcode (slice (WorkaroundPES s) 0 3) = false).
  { destruct (bytes_eqb startcode _) eqn:E; [|reflexivity].
    apply bytes_eqb_eq in E. congruence. }
  rewrite Eb.
  destruct (len (WorkaroundPES s ++ ts_Data pkt) >=? minVvcPesHeaderLen);
    cbn [bind]; eexists; (split; [reflexivity|]);
    unfold on_accumulate; cbn; rewrite Hcur; cbn; repeat split; reflexivity.
Qed.

Lemma h266_Process_sizes (s s' : H266Record PrivLog) pkt :
  h266_sizes_ok s ->
  Process PrivLog priv_hook pes_header s pkt = Ok s' -> h266_sizes_ok s'.
Proof.
  intros (HP & HC). unfold Process. cbv zeta.
  assert (Acc : forall (s2 : H266Record PrivLog) d,
             Forall size_ok (Pkts s2) -> opt_ok (curpkt s2) ->
             h266_sizes_ok (on_accumulate s2 d)).
  { intros s2 d H1 H2. unfold h266_sizes_ok, on_accumulate.
    destruct (curpkt s2) as [c|] eqn:C; cbn; [|rewrite C; auto].
    split; [exact H1|]. now apply accumulate_size_ok. }
  assert (Wk : forall (s1 : H266Record PrivLog) d1 s2 d2,
             on_workaround PrivLog pes_header s1 d1 = Ok (s2, d2) ->
             Forall size_ok (Pkts s1) -> opt_ok (curpkt s1) ->
             Forall size_ok (Pkts s2) /\ opt_ok (curpkt s2)).
  { intros s1 d1 s2 d2 E H1 H2.
    apply h266_on_workaround_frame in E. destruct E as (K & _ & _ & C).
    rewrite K. split; [exact H1|].
    destruct (curpkt s1) as [c|], (curpkt s2) as [c'|]; try tauto.
    destruct C as (_ & _ & ES & ED). unfold opt_ok, size_ok in *.
    now rewrite ES, ED. }
  destruct (ts_PUSI pkt =? 1).
  - destruct (on_pusi _ _ _ pkt) as [[s1 d1]| |] eqn:E1; cbn [bind];
      try discriminate.
    apply h266_on_pusi_frame in E1.
    destruct E1 as (K1 & _ & _ & c & C1 & S1 & D1 & _).
    destruct (on_workaround _ _ s1 d1) as [[s2 d2]| |] eqn:E2; cbn [bind];
      try discriminate.
    intros H. injection H as <-.
    destruct (Wk _ _ _ _ E2) as (H1 & H2).
    + rewrite K1. unfold finalize_on_pusi.
      cbn [curpkt set_base] in *. destruct (curpkt s) as [c0|]; cbn.
      * apply Forall_app. split; [exact HP|]. constructor; [exact HC|constructor].
      * exact HP.
    + rewrite C1. unfold opt_ok, size_ok. now rewrite S1, D1.
    + now apply Acc.
  - cbn [bind].
    destruct (on_workaround _ _ _ (ts_Data pkt)) as [[s2 d2]| |] eqn:E2;
      cbn [bind]; try discriminate.
    intros H. injection H as <-.
    destruct (Wk _ _ _ _ E2) as (H1 & H2); [exact HP|exact HC|].
    now apply Acc.
Qed.

End Steps.

(** X11.  Outside workaround mode, packets without PUSI are reassembled by
    concatenation: after any number of them the current packet holds its
    earlier bytes followed by their payloads in order, its position and
    timestamps are unchanged, its [Size] is still its byte count, and
    nothing is finalized: no packet is added to the packet history and the
    NAL history is as it was. *)
Theorem h266_accumulates_concat :
  forall PrivLog (priv_hook : TsPkt -> PrivLog -> PrivLog)
         (pes_header : list byte -> Z * Z * Z)
         (pkts : list TsPkt) (s : H266Record PrivLog) (cur : PesPkt),
    Forall no_pusi pkts ->
    WorkaroundPESFlag s = false ->
    curpkt s = Some cur ->
    exists s' c',
      run PrivLog priv_hook pes_header s pkts = Ok s'
      /\ curpkt s' = Some c'
      /\ Data c' = Data cur ++ List.concat (map ts_Data pkts)
      /\ Pos c' = Pos cur /\ Pts c' = Pts cur /\ Dts c' = Dts cur
      /\ Pcr c' = Pcr cur
      /\ (size_ok cur -> size_ok c')
      /\ List.length (Pkts s') = List.length (Pkts s)
      /\ NalInfos s' = NalInfos s
      /\ WorkaroundPESFlag s' = false.
Proof.
  intros PrivLog priv_hook pes_header.
  induction pkts as [|pkt pkts IH]; intros s cur Hall Hflag Hcur.
  - exists s, cur. cbn. rewrite app_nil_r. tauto.
  - inversion Hall as [|? ? Hp Hrest]; subst.
    destruct (H266EngineFacts.h266_accumulation_resumes PrivLog priv_hook
                pes_header s pkt cur Hp Hflag Hcur)
      as (s1 & E1 & F1 & _ & C1).
    pose proof (h266_Process_histories _ _ _ _ _ _ E1) as Hh.
    destruct Hh as [(P1 & _)|(_ & K1 & N1)]; [contradiction|].
    destruct (IH s1 (accumulate cur (ts_Data pkt)) Hrest F1 C1)
      as (s' & c' & E & C & D & HPos & HPts & HDts & HPcr & HS & K & N & F).
    exists s', c'. cbn [run]. rewrite E1. cbn [bind].
    rewrite K, N, K1, N1. cbn [map List.concat]. rewrite app_assoc.
    repeat split; try assumption.
    intros Hs. apply HS. now apply accumulate_size_ok.
Qed.

Lemma h266_accumulates_concat_witness :
  exists s' c',
    run unit no_hook iso_pes_header h266_outstanding [tail_pkt; tail_pkt]
    = Ok s'
    /\ curpkt s' = Some c'
    /\ Data c' = idr_two_slices ++ workaround_tail ++ workaround_tail.
Proof.
  destruct (h266_accumulates_concat unit no_hook iso_pes_header
              [tail_pkt; tail_pkt] h266_outstanding
              (mkPesPkt 188 1000 0 0 14 idr_two_slices))
    as (s' & c' & E & C & D & _).
  - repeat constructor; vm_compute; discriminate.
  - reflexivity.
  - reflexivity.
  - exists s', c'. split; [exact E|]. split; [exact C|]. rewrite D.
    reflexivity.
Defined.

(** X12.  A workaround buffer that holds three or more bytes not starting
    with the marker [00 00 01] is never left by packets without PUSI:
    whatever they carry and however long the buffer grows, the record stays
    in workaround mode, the payloads go to the buffer, and the current
    packet receives no byte. *)
Theorem h266_workaround_stuck :
  forall PrivLog (priv_hook : TsPkt -> PrivLog -> PrivLog)
         (pes_header : list byte -> Z * Z * Z)
         (pkts : list TsPkt) (s : H266Record PrivLog) (cur : PesPkt),
    Forall no_pusi pkts ->
    WorkaroundPESFlag s = true ->
    curpkt s = Some cur ->
    3 <= len (WorkaroundPES s) ->
    slice (WorkaroundPES s) 0 3 <> startcode ->
    exists s' c',
      run PrivLog priv_hook pes_header s pkts = Ok s'
      /\ WorkaroundPESFlag s' = true
      /\ WorkaroundPES s' = WorkaroundPES s ++ List.concat (map ts_Data pkts)
      /\ curpkt s' = Some c' /\ Data c' = Data cur
      /\ Pkts s' = Pkts s.
Proof.
  intros PrivLog priv_hook pes_header.
  induction pkts as [|pkt pkts IH]; intros s cur Hall Hflag Hcur Hlen Hne.
  - exists s, cur. cbn. rewrite app_nil_r. tauto.
  - inversion Hall as [|? ? Hp Hrest]; subst.
    destruct (h266_stuck_step PrivLog priv_hook pes_header s pkt cur
                Hp Hflag Hcur Hlen Hne) as (s1 & E1 & F1 & B1 & C1 & K1).
    destruct (IH s1 (accumulate cur []) Hrest F1 C1)
      as (s' & c' & E & F & B & C & D & K).
    + rewrite B1, len_app. pose proof (len_nonneg (ts_Data pkt)). lia.
    + rewrite B1, slice_head_app by exact Hlen. exact Hne.
    + exists s', c'. cbn [run]. rewrite E1. cbn [bind].
      rewrite B, B1, K, K1, D. cbn [map List.concat accumulate Data].
      rewrite <- app_assoc, app_nil_r. tauto.
Qed.

Lemma h266_workaround_stuck_witness :
  exists s',
    run unit no_hook iso_pes_header
        (mkRec base0 (Some (new_pes 188 0)) [] [] true [xff; x00; x00; x01])
        [tail_pkt; tail_pkt] = Ok s'
    /\ WorkaroundPESFlag s' = true.
Proof.
  destruct (h266_workaround_stuck unit no_hook iso_pes_header
              [tail_pkt; tail_pkt]
              (mkRec base0 (Some (new_pes 188 0)) [] [] true
                     [xff; x00; x00; x01])
              (new_pes 188 0))
    as (s' & c' & E & F & _).
  - repeat constructor; vm_compute; discriminate.
  - reflexivity.
  - reflexivity.
  - vm_compute. discriminate.
  - vm_compute. discriminate.
  - exists s'. split; assumption.
Defined.

(** X13.  [Flush] leaves the current packet in place, so finalizing again
    repeats it: a second [Flush], or a PUSI packet processed after a
    [Flush], appends the same packet and the same structural-unit record a
    second time. *)
Theorem h266_Flush_repeats :
  forall PrivLog (priv_hook : TsPkt -> PrivLog -> PrivLog)
         (pes_header : list byte -> Z * Z * Z)
         (s s' : H266Record PrivLog) (cur : PesPkt) (pkt : TsPkt),
    curpkt s = Some cur ->
    ts_PUSI pkt = 1 ->
    Process PrivLog priv_hook pes_header (Flush s) pkt = Ok s' ->
    Pkts s' = Pkts s ++ [cur; cur]
    /\ NalInfos s' = NalInfos s ++ [nal_of cur; nal_of cur]
    /\ Pkts (Flush (Flush s)) = Pkts s ++ [cur; cur]
    /\ NalInfos (Flush (Flush s)) = NalInfos s ++ [nal_of cur; nal_of cur].
Proof.
  intros PrivLog priv_hook pes_header s s' cur pkt Hcur Hp E.
  apply h266_Process_histories in E.
  destruct E as [(_ & K & N)|(Hn & _)]; [|contradiction].
  rewrite K, N. unfold finalize_on_pusi, Flush. rewrite Hcur. cbn.
  rewrite Hcur. cbn. rewrite <- !app_assoc. repeat split; reflexivity.
Qed.

Lemma h266_Flush_repeats_witness :
  exists s',
    Process unit no_hook iso_pes_header (Flush h266_outstanding) pusi_pkt
    = Ok s'
    /\ List.length (Pkts s') = 2%nat.
Proof.
  eexists. split; [reflexivity|].
  destruct (h266_Flush_repeats unit no_hook iso_pes_header h266_outstanding
              _ (mkPesPkt 188 1000 0 0 14 idr_two_slices) pusi_pkt
              eq_refl eq_refl eq_refl) as (K & _).
  rewrite K. reflexivity.
Defined.

(** X14.  [Size] is the byte count of [Data]: if that holds for the
    current packet and the history of a record, it holds after any run of
    [Process] and after [Flush], so every [Size] column of the timing
    report is the number of payload bytes of its packet (as an [int64]). *)
Theorem h266_size_counts_bytes :
  forall PrivLog (priv_hook : TsPkt -> PrivLog -> PrivLog)
         (pes_header : list byte -> Z * Z * Z)
         (pkts : list TsPkt) (s s' : H266Record PrivLog),
    h266_sizes_ok s ->
    run PrivLog priv_hook pes_header s pkts = Ok s' ->
    h266_sizes_ok s'
    /\ Forall (fun p => Size p = wrap64 (len (Data p))) (Pkts (Flush s')).
Proof.
  intros PrivLog priv_hook pes_header.
  induction pkts as [|pkt pkts IH]; intros s s' H; cbn [run].
  - intros E. injection E as <-. split; [exact H|].
    destruct H as (HP & HC). unfold Flush.
    destruct (curpkt s) as [c|]; cbn; [|exact HP].
    apply Forall_app. split; [exact HP|]. constructor; [exact HC|constructor].
  - destruct (Process _ _ _ s pkt) as [s1| |] eqn:E1; cbn [bind];
      try discriminate.
    apply IH. eapply h266_Process_sizes; eassumption.
Qed.

Lemma h266_size_counts_bytes_witness :
  exists s',
    run unit no_hook iso_pes_header h266_init [idr_pusi_pkt; tail_pkt] = Ok s'
    /\ h266_sizes_ok s'.
Proof.
  eexists. split; [reflexivity|].
  apply (h266_size_counts_bytes unit no_hook iso_pes_header
           [idr_pusi_pkt; tail_pkt] h266_init).
  - split; constructor.
  - reflexivity.
Defined.

End H266Reassembly.

(** ** The MPEG-H record *)

Module MpeghLaws.
Import Mhas MpeghRec EngineShared Laws Samples.

Section Steps.

Variable PrivLog : Type.
Variable priv_hook : TsPkt -> PrivLog -> PrivLog.
Variable pes_header : list byte -> Z * Z * Z.

Lemma mpegh_on_pusi_frame (s s' : MpeghAudioRecord PrivLog) pkt data :
  on_pusi PrivLog pes_header s pkt = Ok (s', data) ->
  exists s1, finalize_on_pusi s = Ok s1 /\ same_histories s' s1.
Proof.
  unfold on_pusi.
  destruct (finalize_on_pusi s) as [s1| |]; cbn [bind]; try discriminate.
  cbv zeta. intros H. exists s1. split; [reflexivity|].
  destruct (len (ts_Data pkt) >=? minMpeghAudioPesHeaderLen).
  - destruct (bytes_eqb startcode (slice (ts_Data pkt) 0 3)).
    + destruct (Read pes_header _ (ts_Data pkt)) as [c hlen].
      destruct (slice_from (ts_Data pkt) hlen); cbn [of_option bind] in H;
        [|discriminate].
      injection H as <- <-. repeat split.
    + injection H as <- <-. repeat split.
  - injection H as <- <-. repeat split.
Qed.

Lemma mpegh_on_workaround_frame (s s' : MpeghAudioRecord PrivLog) data data' :
  on_workaround PrivLog pes_header s data = Ok (s', data') ->
  same_histories s' s.
Proof.
  unfold on_workaround. cbv zeta.
  destruct (WorkaroundPESFlag s).
  - destruct (len (WorkaroundPES s ++ data) >=? minMpeghAudioPesHeaderLen).
    + destruct (bytes_eqb startcode _).
      * cbn [curpkt set_workaround]. destruct (curpkt s) as [c|];
          [|discriminate].
        destruct (Read pes_header c _) as [c' hlen].
        destruct (slice_from _ hlen); cbn [of_option bind]; [|discriminate].
        intros H. injection H as <- <-. repeat split.
      * intros H. injection H as <- <-. repeat split.
    + intros H. injection H as <- <-. repeat split.
  - intros H. injection H as <- <-. repeat split.
Qed.

Lemma on_accumulate_frame (s : MpeghAudioRecord PrivLog) data :
  same_histories (on_accumulate s data) s.
Proof. unfold on_accumulate. destruct (curpkt s); repeat split. Qed.

Lemma same_histories_trans (a b c : MpeghAudioRecord PrivLog) :
  same_histories a b -> same_histories b c -> same_histories a c.
Proof.
  intros (H1 & H2 & H3 & H4) (G1 & G2 & G3 & G4).
  repeat split; congruence.
Qed.

(** [Process], seen from the histories: a PUSI packet finalizes, any other
    packet leaves them alone. *)
Lemma mpegh_Process_histories (s s' : MpeghAudioRecord PrivLog) pkt :
  Process PrivLog priv_hook pes_header s pkt = Ok s' ->
  (ts_PUSI pkt = 1
   /\ exists s1,
        finalize_on_pusi
          (set_base PrivLog s
             (LogAdaptFieldPrivData priv_hook (base s) pkt)) = Ok s1
        /\ same_histories s' s1)
  \/ (ts_PUSI pkt <> 1 /\ same_histories s' s).
Proof.
  unfold Process. cbv zeta.
  destruct (ts_PUSI pkt =? 1) eqn:P.
  - apply Z.eqb_eq in P.
    destruct (on_pusi _ _ _ pkt) as [[s1 d1]| |] eqn:E1; cbn [bind];
      try discriminate.
    apply mpegh_on_pusi_frame in E1. destruct E1 as (s0 & F & H1).
    destruct (on_workaround _ _ s1 d1) as [[s2 d2]| |] eqn:E2; cbn [bind];
      try discriminate.
    apply mpegh_on_workaround_frame in E2.
    intros H. injection H as <-. left. split; [exact P|].
    exists s0. split; [exact F|].
    eapply same_histories_trans; [apply on_accumulate_frame|].
    eapply same_histories_trans; eassumption.
  - apply Z.eqb_neq in P. cbn [bind].
    destruct (on_workaround _ _ _ (ts_Data pkt)) as [[s2 d2]| |] eqn:E2;
      cbn [bind]; try discriminate.
    apply mpegh_on_workaround_frame in E2.
    intros H. injection H as <-. right. split; [exact P|].
    eapply same_histories_trans; [apply on_accumulate_frame|].
    eapply same_histories_trans; [exact E2|]. repeat split.
Qed.

(** What one finalization adds to the histories. *)
Lemma mpegh_finalize_fields (s s1 : MpeghAudioRecord PrivLog) cur :
  curpkt s = Some cur ->
  finalize_on_pusi s = Ok s1 ->
  exists sc,
    mhas_scan (Data cur) = Ok sc
    /\ Pkts s1 = Pkts s ++ [cur]
    /\ MhasPackets s1
       = MhasPackets s
         ++ (if len (packetTypes sc) >? 0
             then [mkMhasInfo (Pos cur) (Pts cur) (packetTypes sc)]
             else [])
    /\ RapFrames s1 = RapFrames s ++ (if isRap sc then [Pos cur] else [])
    /\ RapLog s1
       = (if isRap sc
          then Some ((match RapLog s with
                      | None => ["Pos, PTS, Key"%string]
                      | Some lines => lines
                      end)
                     ++ [Join [FormatInt (Pos cur); FormatInt (Pts cur);
                               FormatBool true]])
          else RapLog s).
Proof.
  intros Hcur. unfold finalize_on_pusi, parseMhasPackets. rewrite Hcur.
  destruct (mhas_scan (Data cur)) as [sc| |]; cbn [bind]; try discriminate.
  intros H. injection H as <-. exists sc. split; [reflexivity|].
  destruct (len (packetTypes sc) >? 0), (isRap sc); cbn;
    rewrite ?app_nil_r; repeat split; reflexivity.
Qed.

Lemma mpegh_Flush_fields (s s1 : MpeghAudioRecord PrivLog) cur :
  curpkt s = Some cur ->
  Flush s = Ok s1 ->
  exists sc,
    mhas_scan (Data cur) = Ok sc
    /\ Pkts s1 = Pkts s ++ [cur]
    /\ MhasPackets s1
       = MhasPackets s
         ++ (if len (packetTypes sc) >? 0
             then [mkMhasInfo (Pos cur) (Pts cur) (packetTypes sc)]
             else [])
    /\ RapFrames s1 = RapFrames s /\ RapLog s1 = RapLog s.
Proof.
  intros Hcur. unfold Flush, parseMhasPackets. rewrite Hcur.
  destruct (mhas_scan (Data cur)) as [sc| |]; cbn [bind]; try discriminate.
  intros H. injection H as <-. exists sc. split; [reflexivity|].
  destruct (len (packetTypes sc) >? 0); cbn;
    rewrite ?app_nil_r; repeat split; reflexivity.
Qed.

End Steps.
End MpeghLaws.

Module MpeghInvariants.
Import Mhas MpeghRec EngineShared Laws Samples MpeghLaws.

Section Steps.

Variable PrivLog : Type.
Variable priv_hook : TsPkt -> PrivLog -> PrivLog.
Variable pes_header : list byte -> Z * Z * Z.

Lemma rap_log_ok_same (a b : MpeghAudioRecord PrivLog) :
  same_histories a b -> rap_log_ok b -> rap_log_ok a.
Proof.
  intros (_ & _ & HF & HL). unfold rap_log_ok. now rewrite HF, HL.
Qed.

Lemma mhas_history_ok_same (a b : MpeghAudioRecord PrivLog) :
  same_histories a b -> mhas_history_ok b -> mhas_history_ok a.
Proof.
  intros (HP & HM & _). unfold mhas_history_ok. now rewrite HP, HM.
Qed.

Lemma finalize_none (s s1 : MpeghAudioRecord PrivLog) :
  curpkt s = None -> finalize_on_pusi s = Ok s1 -> s1 = s.
Proof.
  unfold finalize_on_pusi. intros ->. intros H. now injection H.
Qed.

Lemma finalize_rap_log_ok (s s1 : MpeghAudioRecord PrivLog) :
  rap_log_ok s -> finalize_on_pusi s = Ok s1 -> rap_log_ok s1.
Proof.
  intros H E. destruct (curpkt s) as [cur|] eqn:C.
  - destruct (mpegh_finalize_fields PrivLog s s1 cur C E)
      as (sc & _ & _ & _ & HF & HL).
    unfold rap_log_ok in *. rewrite HF, HL.
    destruct (isRap sc); [|now rewrite app_nil_r].
    split; [intros N; now apply app_eq_nil in N|].
    rewrite !length_app. cbn [List.length].
    destruct (RapLog s) as [lines|].
    + destruct H as (_ & Hl & Hh). split; [lia|].
      destruct lines as [|l0 lines]; [discriminate Hl|exact Hh].
    + rewrite H. split; reflexivity.
  - now rewrite (finalize_none s s1 C E).
Qed.

Lemma finalize_mhas_history_ok (s s1 : MpeghAudioRecord PrivLog) :
  mhas_history_ok s -> finalize_on_pusi s = Ok s1 -> mhas_history_ok s1.
Proof.
  intros (HN & HL) E. destruct (curpkt s) as [cur|] eqn:C.
  - destruct (mpegh_finalize_fields PrivLog s s1 cur C E)
      as (sc & _ & HP & HM & _).
    unfold mhas_history_ok. rewrite HP, HM, !length_app. cbn [List.length].
    destruct (len (packetTypes sc) >? 0) eqn:G.
    + split; [|cbn [List.length]; lia].
      apply Forall_app. split; [exact HN|]. constructor; [|constructor].
      cbn. intros N. rewrite N in G. discriminate G.
    + rewrite app_nil_r. split; [exact HN|]. cbn [List.length]. lia.
  - rewrite (finalize_none s s1 C E). now split.
Qed.

Lemma Flush_rap_log_ok (s s1 : MpeghAudioRecord PrivLog) :
  rap_log_ok s -> Flush s = Ok s1 -> rap_log_ok s1.
Proof.
  intros H E.
  destruct (MpeghEngineFacts.Flush_keeps_rap PrivLog s s1 E) as (HF & HL).
  unfold rap_log_ok. now rewrite HF, HL.
Qed.

Lemma Flush_mhas_history_ok (s s1 : MpeghAudioRecord PrivLog) :
  mhas_history_ok s -> Flush s = Ok s1 -> mhas_history_ok s1.
Proof.
  intros (HN & HL) E. destruct (curpkt s) as [cur|] eqn:C.
  - destruct (mpegh_Flush_fields PrivLog s s1 cur C E)
      as (sc & _ & HP & HM & _).
    unfold mhas_history_ok. rewrite HP, HM, !length_app. cbn [List.length].
    destruct (len (packetTypes sc) >? 0) eqn:G.
    + split; [|cbn [List.length]; lia].
      apply Forall_app. split; [exact HN|]. constructor; [|constructor].
      cbn. intros N. rewrite N in G. discriminate G.
    + rewrite app_nil_r. split; [exact HN|]. cbn [List.length]. lia.
  - unfold Flush in E. rewrite C in E. injection E as <-. now split.
Qed.

Lemma Process_keeps (P : MpeghAudioRecord PrivLog -> Prop) :
  (forall a b, same_histories a b -> P b -> P a) ->
  (forall s s1, P s -> finalize_on_pusi s = Ok s1 -> P s1) ->
  forall s s' pkt,
    P s -> Process PrivLog priv_hook pes_header s pkt = Ok s' -> P s'.
Proof.
  intros Hsame Hfin s s' pkt HP E.
  apply mpegh_Process_histories in E.
  destruct E as [(_ & s1 & F & HS)|(_ & HS)].
  - apply (Hsame _ _ HS). refine (Hfin _ _ _ F).
    apply (Hsame _ s); [repeat split | exact HP].
  - exact (Hsame _ _ HS HP).
Qed.

Lemma run_keeps (P : MpeghAudioRecord PrivLog -> Prop) :
  (forall a b, same_histories a b -> P b -> P a) ->
  (forall s s1, P s -> finalize_on_pusi s = Ok s1 -> P s1) ->
  forall pkts s s',
    P s -> run PrivLog priv_hook pes_header s pkts = Ok s' -> P s'.
Proof.
  intros Hsame Hfin. induction pkts as [|pkt pkts IH]; intros s s' HP;
    cbn [run].
  - intros E. injection E as <-. exact HP.
  - destruct (Process _ _ _ s pkt) as [s1| |] eqn:E1; cbn [bind];
      try discriminate.
    apply IH. eapply Process_keeps; eassumption.
Qed.

End Steps.

(** X15.  [<PID>-rap.csv] runs in step with [RapFrames]: the file does
    not exist while [RapFrames] is empty; once it exists its first line is
    the header [Pos, PTS, Key] and it has exactly one row per entry of
    [RapFrames].  This is kept by every [Process] and by [Flush]. *)
Theorem mpegh_rap_log_in_step :
  forall PrivLog (priv_hook : TsPkt -> PrivLog -> PrivLog)
         (pes_header : list byte -> Z * Z * Z)
         (pkts : list TsPkt) (s s' f : MpeghAudioRecord PrivLog),
    rap_log_ok s ->
    run PrivLog priv_hook pes_header s pkts = Ok s' ->
    Flush s' = Ok f ->
    rap_log_ok s' /\ rap_log_ok f
    /\ (RapLog f = None <-> RapFrames f = []).
Proof.
  intros PrivLog priv_hook pes_header pkts s s' f H E EF.
  assert (H' : rap_log_ok s').
  { eapply (run_keeps PrivLog priv_hook pes_header rap_log_ok);
      [apply rap_log_ok_same | apply finalize_rap_log_ok | exact H | exact E]. }
  pose proof (Flush_rap_log_ok PrivLog s' f H' EF) as HF.
  split; [exact H'|]. split; [exact HF|].
  unfold rap_log_ok in HF. destruct (RapLog f) as [lines|].
  - destruct HF as (Hne & _). split; [discriminate|contradiction].
  - split; auto.
Qed.

Lemma mpegh_rap_log_in_step_witness :
  exists s',
    run unit no_hook iso_pes_header mpegh_init [mhas_pusi_pkt; pusi_pkt]
    = Ok s'
    /\ rap_log_ok s'.
Proof.
  let r := eval vm_compute in
        (run unit no_hook iso_pes_header mpegh_init [mhas_pusi_pkt; pusi_pkt])
  in
  match r with
  | Ok ?x =>
    let g := eval vm_compute in (Flush x) in
    match g with
    | Ok ?y =>
      exists x; split; [vm_compute; reflexivity|];
      refine (proj1 (mpegh_rap_log_in_step unit no_hook iso_pes_header
                       [mhas_pusi_pkt; pusi_pkt] mpegh_init x y _ _ _));
      vm_compute; reflexivity
    end
  end.
Defined.

(** X16.  The MHAS history never holds a record without packet types and
    never has more records than there are finalized packets, whatever
    packets [Process] is given and after [Flush]; so [<PID>-mhas.csv] has no
    row with an empty type list and at most as many rows as
    [<PID>.csv]. *)
Theorem mpegh_mhas_history_rows :
  forall PrivLog (priv_hook : TsPkt -> PrivLog -> PrivLog)
         (pes_header : list byte -> Z * Z * Z)
         (pkts : list TsPkt) (s s' f : MpeghAudioRecord PrivLog),
    mhas_history_ok s ->
    run PrivLog priv_hook pes_header s pkts = Ok s' ->
    Flush s' = Ok f ->
    Forall (fun m => PacketTypes m <> []) (MhasPackets f)
    /\ (List.length (MhasPackets f) <= List.length (Pkts f))%nat
    /\ mhas_history_ok s'.
Proof.
  intros PrivLog priv_hook pes_header pkts s s' f H E EF.
  assert (H' : mhas_history_ok s').
  { eapply (run_keeps PrivLog priv_hook pes_header mhas_history_ok);
      [apply mhas_history_ok_same | apply finalize_mhas_history_ok
       | exact H | exact E]. }
  destruct (Flush_mhas_history_ok PrivLog s' f H' EF) as (HN & HL).
  auto.
Qed.

Lemma mpegh_mhas_history_rows_witness :
  exists s',
    run unit no_hook iso_pes_header mpegh_init [mhas_pusi_pkt; pusi_pkt]
    = Ok s'
    /\ mhas_history_ok s'.
Proof.
  let r := eval vm_compute in
        (run unit no_hook iso_pes_header mpegh_init [mhas_pusi_pkt; pusi_pkt])
  in
  match r with
  | Ok ?x =>
    let g := eval vm_compute in (Flush x) in
    match g with
    | Ok ?y =>
      exists x; split; [vm_compute; reflexivity|];
      refine (proj2 (proj2 (mpegh_mhas_history_rows unit no_hook
                              iso_pes_header [mhas_pusi_pkt; pusi_pkt]
                              mpegh_init x y _ _ _)));
      [split; [constructor | cbn; lia]
      | vm_compute; reflexivity | vm_compute; reflexivity]
    end
  end.
Defined.

End MpeghInvariants.

Module H266BeforeStart.
Import H266 H266Rec EngineShared Laws Samples.

Lemma h266_idle_step PrivLog (priv_hook : TsPkt -> PrivLog -> PrivLog)
    (pes_header : list byte -> Z * Z * Z) (s : H266Record PrivLog) pkt :
  no_pusi pkt -> curpkt s = None -> WorkaroundPESFlag s = false ->
  Process PrivLog priv_hook pes_header s pkt
  = Ok (set_base PrivLog s (LogAdaptFieldPrivData priv_hook (base s) pkt)).
Proof.
  intros Hp Hc Hf. unfold Process. rewrite (not_pusi pkt Hp). cbn [bind].
  unfold on_workaround.
  cbn [set_base WorkaroundPESFlag WorkaroundPES curpkt set_workaround].
  rewrite Hf. cbn [bind]. unfold on_accumulate. cbn. now rewrite Hc.
Qed.

(** X17.  Payload that arrives before the first PUSI packet is dropped:
    while there is no current packet and no workaround mode, packets without
    PUSI leave the histories, the event log, the buffer and the (absent)
    current packet as they are. *)
Theorem h266_bytes_before_first_PUSI_dropped :
  forall PrivLog (priv_hook : TsPkt -> PrivLog -> PrivLog)
         (pes_header : list byte -> Z * Z * Z)
         (pkts : list TsPkt) (s : H266Record PrivLog),
    Forall no_pusi pkts ->
    curpkt s = None ->
    WorkaroundPESFlag s = false ->
    exists s',
      run PrivLog priv_hook pes_header s pkts = Ok s'
      /\ curpkt s' = None
      /\ Pkts s' = Pkts s /\ NalInfos s' = NalInfos s
      /\ IFrames (base s') = IFrames (base s)
      /\ WorkaroundPESFlag s' = false
      /\ WorkaroundPES s' = WorkaroundPES s.
Proof.
  intros PrivLog priv_hook pes_header.
  induction pkts as [|pkt pkts IH]; intros s Hall Hc Hf.
  - exists s. cbn. repeat split; assumption.
  - inversion Hall as [|? ? Hp Hrest]; subst.
    cbn [run]. rewrite (h266_idle_step _ _ _ s pkt Hp Hc Hf). cbn [bind].
    destruct (IH (set_base PrivLog s
                    (LogAdaptFieldPrivData priv_hook (base s) pkt))
                 Hrest Hc Hf) as (s' & E & C & K & N & I & F & B).
    exists s'. repeat split; assumption.
Qed.

Lemma h266_bytes_before_first_PUSI_dropped_witness :
  exists s',
    run unit no_hook iso_pes_header h266_init [tail_pkt; tail_pkt] = Ok s'
    /\ curpkt s' = None.
Proof.
  destruct (h266_bytes_before_first_PUSI_dropped unit no_hook iso_pes_header
              [tail_pkt; tail_pkt] h266_init) as (s' & E & C & _).
  - repeat constructor; vm_compute; discriminate.
  - reflexivity.
  - reflexivity.
  - exists s'. split; assumption.
Defined.

End H266BeforeStart.
